(** * GameEngine (src/js/gameEngine.js): a shallow embedding and its properties

    The engine is one mutable object driven by the browser's event loop: the
    public methods [start], [stop] and [onPoseDetected], a [setInterval]
    callback (level-up), a self-rescheduling [setTimeout] callback
    ([spawnItem]) and a [requestAnimationFrame] callback ([gameLoop]).

    The embedding threads a [World] (the engine object and the host's table
    of live timers) through a small state monad that also collects the
    callback invocations (the outbound notifications) and can throw.

    Conventions.
    - Numeric fields are JS numbers that only ever hold integers; they are
      modelled as [Z] (exact as long as they stay below 2^53).
    - [Date.now()] and [Math.random()] are inputs of the environment: each
      event carries the values these calls returned.
    - The five callback slots hold either [null] or a function of the
      presentation layer.  A registered callback is an observer: it does not
      call back into the engine and does not throw (this is how
      src/js/main.js wires them).  A slot is therefore a [bool]. *)

From Stdlib Require Import ZArith QArith PrimFloat List String Bool Lia Permutation Sorted.
Import ListNotations.
Open Scope string_scope.
Open Scope list_scope.
Open Scope Z_scope.

(** ** Data model *)

(** Keys of [this.itemTypes]; [selectItemType] only ever returns one of them. *)
Inductive ItemType := apple | banana | watermelon | cherry | bomb.

(** The three zone strings ["LEFT"], ["CENTER"], ["RIGHT"]. *)
Inductive Zone := LEFT | CENTER | RIGHT.

Record ItemData := { emoji : string; itemScore : Z; isFruit : bool }.

(** [this.itemTypes] *)
Definition itemTypes (t : ItemType) : ItemData :=
  match t with
  | apple      => {| emoji := "🍎"; itemScore := 100; isFruit := true |}
  | banana     => {| emoji := "🍌"; itemScore := 150; isFruit := true |}
  | watermelon => {| emoji := "🍉"; itemScore := 200; isFruit := true |}
  | cherry     => {| emoji := "🍒"; itemScore := 250; isFruit := true |}
  | bomb       => {| emoji := "💣"; itemScore := 0;   isFruit := false |}
  end.

(** [this.levelConfig]: an object with the keys 1..5.  No method reads
    [bombProbability] (0.05, 0.10, 0.20 in the source).  A lookup at another
    key yields [undefined], here [None]. *)
Record LevelConfig := { fallDuration : Z; bombProbability : Q }.

Definition levelConfig (l : Z) : option LevelConfig :=
  if l =? 1 then Some {| fallDuration := 4000; bombProbability := 5 # 100 |}
  else if l =? 2 then Some {| fallDuration := 3500; bombProbability := 5 # 100 |}
  else if l =? 3 then Some {| fallDuration := 3000; bombProbability := 10 # 100 |}
  else if l =? 4 then Some {| fallDuration := 2500; bombProbability := 10 # 100 |}
  else if l =? 5 then Some {| fallDuration := 2000; bombProbability := 20 # 100 |}
  else None.

Record Item := {
  id : Z;
  type : ItemType;
  zone : Zone;
  y : Z;
  createdAt : Z
}.

(** Values that [basketPosition] can hold.  It starts as a zone string and
    [onPoseDetected] assigns it [poseToZone[pose]].  [poseToZone] is an
    object literal, so the lookup also finds the members it inherits from
    [Object.prototype] (for instance [poseToZone["constructor"]] is the
    function [Object]); [Inherited k] stands for the member found under the
    inherited key [k].  All of them are objects, hence truthy, and pairwise
    distinct under [===]. *)
Inductive Position :=
| InZone (z : Zone)
| Inherited (k : string).

(** Timer ids returned by [setInterval], [setTimeout] and
    [requestAnimationFrame]: positive integers, hence truthy. *)
Definition Handle := positive.

Record GameEngine := {
  score : Z;
  level : Z;
  missCount : Z;
  maxMisses : Z;
  combo : Z;
  isGameActive : bool;
  fruitsCaught : Z;
  gameStartTime : Z;
  levelUpTimer : option Handle;
  itemSpawnTimer : option Handle;
  basketPosition : Position;
  items : list Item;
  itemIdCounter : Z;
  onScoreChange : bool;
  onItemCreate : bool;
  onItemRemove : bool;
  onBasketMove : bool;
  onGameEnd : bool;
  animationId : option Handle
}.

(** The object built by [constructor()]. *)
Definition constructor : GameEngine := {|
  score := 0; level := 1; missCount := 0; maxMisses := 3; combo := 0;
  isGameActive := false; fruitsCaught := 0;
  gameStartTime := 0; levelUpTimer := None; itemSpawnTimer := None;
  basketPosition := InZone CENTER;
  items := []; itemIdCounter := 0;
  onScoreChange := false; onItemCreate := false; onItemRemove := false;
  onBasketMove := false; onGameEnd := false;
  animationId := None
|}.

(** The host side of the timers: which intervals (with their period in ms),
    timeouts and animation frames are still pending, and the next fresh id.
    Every interval of this program runs the level-up callback, every timeout
    [spawnItem] and every frame [gameLoop]. *)
Record Host := {
  nextHandle : Handle;
  intervals : list (Handle * Z);
  timeouts : list Handle;
  frames : list Handle
}.

Definition idle_host : Host :=
  {| nextHandle := 1%positive; intervals := []; timeouts := []; frames := [] |}.

Record World := { eng : GameEngine; host : Host }.

(** ** Outbound notifications (callback invocations) *)

Inductive Notification :=
| ScoreChange (sc lv mc mm cb : Z)          (* onScoreChange({score, level, missCount, maxMisses, combo}) *)
| ItemCreate (it : Item) (fall : Z)         (* onItemCreate(item, config.fallDuration) *)
| ItemRemove (i : Z)                        (* onItemRemove(id) *)
| BasketMove (p : Position)                 (* onBasketMove(basketPosition) *)
| GameEnd (reason : string) (sc lv fc : Z). (* onGameEnd({reason, score, level, fruitsCaught}) *)

Definition Trace := list Notification.

(** ** Field updates ([this.f = v]) *)

Definition set_score (v : Z) (e : GameEngine) : GameEngine :=
  {| score := v; level := level e; missCount := missCount e; maxMisses := maxMisses e;
     combo := combo e; isGameActive := isGameActive e; fruitsCaught := fruitsCaught e;
     gameStartTime := gameStartTime e; levelUpTimer := levelUpTimer e;
     itemSpawnTimer := itemSpawnTimer e; basketPosition := basketPosition e;
     items := items e; itemIdCounter := itemIdCounter e;
     onScoreChange := onScoreChange e; onItemCreate := onItemCreate e;
     onItemRemove := onItemRemove e; onBasketMove := onBasketMove e;
     onGameEnd := onGameEnd e; animationId := animationId e |}.

Definition set_level (v : Z) (e : GameEngine) : GameEngine :=
  {| score := score e; level := v; missCount := missCount e; maxMisses := maxMisses e;
     combo := combo e; isGameActive := isGameActive e; fruitsCaught := fruitsCaught e;
     gameStartTime := gameStartTime e; levelUpTimer := levelUpTimer e;
     itemSpawnTimer := itemSpawnTimer e; basketPosition := basketPosition e;
     items := items e; itemIdCounter := itemIdCounter e;
     onScoreChange := onScoreChange e; onItemCreate := onItemCreate e;
     onItemRemove := onItemRemove e; onBasketMove := onBasketMove e;
     onGameEnd := onGameEnd e; animationId := animationId e |}.

Definition set_missCount (v : Z) (e : GameEngine) : GameEngine :=
  {| score := score e; level := level e; missCount := v; maxMisses := maxMisses e;
     combo := combo e; isGameActive := isGameActive e; fruitsCaught := fruitsCaught e;
     gameStartTime := gameStartTime e; levelUpTimer := levelUpTimer e;
     itemSpawnTimer := itemSpawnTimer e; basketPosition := basketPosition e;
     items := items e; itemIdCounter := itemIdCounter e;
     onScoreChange := onScoreChange e; onItemCreate := onItemCreate e;
     onItemRemove := onItemRemove e; onBasketMove := onBasketMove e;
     onGameEnd := onGameEnd e; animationId := animationId e |}.

Definition set_combo (v : Z) (e : GameEngine) : GameEngine :=
  {| score := score e; level := level e; missCount := missCount e; maxMisses := maxMisses e;
     combo := v; isGameActive := isGameActive e; fruitsCaught := fruitsCaught e;
     gameStartTime := gameStartTime e; levelUpTimer := levelUpTimer e;
     itemSpawnTimer := itemSpawnTimer e; basketPosition := basketPosition e;
     items := items e; itemIdCounter := itemIdCounter e;
     onScoreChange := onScoreChange e; onItemCreate := onItemCreate e;
     onItemRemove := onItemRemove e; onBasketMove := onBasketMove e;
     onGameEnd := onGameEnd e; animationId := animationId e |}.

Definition set_isGameActive (v : bool) (e : GameEngine) : GameEngine :=
  {| score := score e; level := level e; missCount := missCount e; maxMisses := maxMisses e;
     combo := combo e; isGameActive := v; fruitsCaught := fruitsCaught e;
     gameStartTime := gameStartTime e; levelUpTimer := levelUpTimer e;
     itemSpawnTimer := itemSpawnTimer e; basketPosition := basketPosition e;
     items := items e; itemIdCounter := itemIdCounter e;
     onScoreChange := onScoreChange e; onItemCreate := onItemCreate e;
     onItemRemove := onItemRemove e; onBasketMove := onBasketMove e;
     onGameEnd := onGameEnd e; animationId := animationId e |}.

Definition set_fruitsCaught (v : Z) (e : GameEngine) : GameEngine :=
  {| score := score e; level := level e; missCount := missCount e; maxMisses := maxMisses e;
     combo := combo e; isGameActive := isGameActive e; fruitsCaught := v;
     gameStartTime := gameStartTime e; levelUpTimer := levelUpTimer e;
     itemSpawnTimer := itemSpawnTimer e; basketPosition := basketPosition e;
     items := items e; itemIdCounter := itemIdCounter e;
     onScoreChange := onScoreChange e; onItemCreate := onItemCreate e;
     onItemRemove := onItemRemove e; onBasketMove := onBasketMove e;
     onGameEnd := onGameEnd e; animationId := animationId e |}.

Definition set_gameStartTime (v : Z) (e : GameEngine) : GameEngine :=
  {| score := score e; level := level e; missCount := missCount e; maxMisses := maxMisses e;
     combo := combo e; isGameActive := isGameActive e; fruitsCaught := fruitsCaught e;
     gameStartTime := v; levelUpTimer := levelUpTimer e;
     itemSpawnTimer := itemSpawnTimer e; basketPosition := basketPosition e;
     items := items e; itemIdCounter := itemIdCounter e;
     onScoreChange := onScoreChange e; onItemCreate := onItemCreate e;
     onItemRemove := onItemRemove e; onBasketMove := onBasketMove e;
     onGameEnd := onGameEnd e; animationId := animationId e |}.

Definition set_levelUpTimer (v : option Handle) (e : GameEngine) : GameEngine :=
  {| score := score e; level := level e; missCount := missCount e; maxMisses := maxMisses e;
     combo := combo e; isGameActive := isGameActive e; fruitsCaught := fruitsCaught e;
     gameStartTime := gameStartTime e; levelUpTimer := v;
     itemSpawnTimer := itemSpawnTimer e; basketPosition := basketPosition e;
     items := items e; itemIdCounter := itemIdCounter e;
     onScoreChange := onScoreChange e; onItemCreate := onItemCreate e;
     onItemRemove := onItemRemove e; onBasketMove := onBasketMove e;
     onGameEnd := onGameEnd e; animationId := animationId e |}.

Definition set_itemSpawnTimer (v : option Handle) (e : GameEngine) : GameEngine :=
  {| score := score e; level := level e; missCount := missCount e; maxMisses := maxMisses e;
     combo := combo e; isGameActive := isGameActive e; fruitsCaught := fruitsCaught e;
     gameStartTime := gameStartTime e; levelUpTimer := levelUpTimer e;
     itemSpawnTimer := v; basketPosition := basketPosition e;
     items := items e; itemIdCounter := itemIdCounter e;
     onScoreChange := onScoreChange e; onItemCreate := onItemCreate e;
     onItemRemove := onItemRemove e; onBasketMove := onBasketMove e;
     onGameEnd := onGameEnd e; animationId := animationId e |}.

Definition set_basketPosition (v : Position) (e : GameEngine) : GameEngine :=
  {| score := score e; level := level e; missCount := missCount e; maxMisses := maxMisses e;
     combo := combo e; isGameActive := isGameActive e; fruitsCaught := fruitsCaught e;
     gameStartTime := gameStartTime e; levelUpTimer := levelUpTimer e;
     itemSpawnTimer := itemSpawnTimer e; basketPosition := v;
     items := items e; itemIdCounter := itemIdCounter e;
     onScoreChange := onScoreChange e; onItemCreate := onItemCreate e;
     onItemRemove := onItemRemove e; onBasketMove := onBasketMove e;
     onGameEnd := onGameEnd e; animationId := animationId e |}.

Definition set_items (v : list Item) (e : GameEngine) : GameEngine :=
  {| score := score e; level := level e; missCount := missCount e; maxMisses := maxMisses e;
     combo := combo e; isGameActive := isGameActive e; fruitsCaught := fruitsCaught e;
     gameStartTime := gameStartTime e; levelUpTimer := levelUpTimer e;
     itemSpawnTimer := itemSpawnTimer e; basketPosition := basketPosition e;
     items := v; itemIdCounter := itemIdCounter e;
     onScoreChange := onScoreChange e; onItemCreate := onItemCreate e;
     onItemRemove := onItemRemove e; onBasketMove := onBasketMove e;
     onGameEnd := onGameEnd e; animationId := animationId e |}.

Definition set_itemIdCounter (v : Z) (e : GameEngine) : GameEngine :=
  {| score := score e; level := level e; missCount := missCount e; maxMisses := maxMisses e;
     combo := combo e; isGameActive := isGameActive e; fruitsCaught := fruitsCaught e;
     gameStartTime := gameStartTime e; levelUpTimer := levelUpTimer e;
     itemSpawnTimer := itemSpawnTimer e; basketPosition := basketPosition e;
     items := items e; itemIdCounter := v;
     onScoreChange := onScoreChange e; onItemCreate := onItemCreate e;
     onItemRemove := onItemRemove e; onBasketMove := onBasketMove e;
     onGameEnd := onGameEnd e; animationId := animationId e |}.

Definition set_animationId (v : option Handle) (e : GameEngine) : GameEngine :=
  {| score := score e; level := level e; missCount := missCount e; maxMisses := maxMisses e;
     combo := combo e; isGameActive := isGameActive e; fruitsCaught := fruitsCaught e;
     gameStartTime := gameStartTime e; levelUpTimer := levelUpTimer e;
     itemSpawnTimer := itemSpawnTimer e; basketPosition := basketPosition e;
     items := items e; itemIdCounter := itemIdCounter e;
     onScoreChange := onScoreChange e; onItemCreate := onItemCreate e;
     onItemRemove := onItemRemove e; onBasketMove := onBasketMove e;
     onGameEnd := onGameEnd e; animationId := v |}.

(** The five callback slots, and [set_callback] for the five setters. *)
Inductive Slot := SlotScoreChange | SlotItemCreate | SlotItemRemove | SlotBasketMove | SlotGameEnd.

Definition set_callback (k : Slot) (v : bool) (e : GameEngine) : GameEngine :=
  {| score := score e; level := level e; missCount := missCount e; maxMisses := maxMisses e;
     combo := combo e; isGameActive := isGameActive e; fruitsCaught := fruitsCaught e;
     gameStartTime := gameStartTime e; levelUpTimer := levelUpTimer e;
     itemSpawnTimer := itemSpawnTimer e; basketPosition := basketPosition e;
     items := items e; itemIdCounter := itemIdCounter e;
     onScoreChange := match k with SlotScoreChange => v | _ => onScoreChange e end;
     onItemCreate := match k with SlotItemCreate => v | _ => onItemCreate e end;
     onItemRemove := match k with SlotItemRemove => v | _ => onItemRemove e end;
     onBasketMove := match k with SlotBasketMove => v | _ => onBasketMove e end;
     onGameEnd := match k with SlotGameEnd => v | _ => onGameEnd e end;
     animationId := animationId e |}.

Definition slot (k : Slot) (e : GameEngine) : bool :=
  match k with
  | SlotScoreChange => onScoreChange e
  | SlotItemCreate => onItemCreate e
  | SlotItemRemove => onItemRemove e
  | SlotBasketMove => onBasketMove e
  | SlotGameEnd => onGameEnd e
  end.

(** ** The engine monad

    A method body is a function from the world to either a thrown exception
    ([None]; the only one within reach is the [TypeError] of reading a
    property of [undefined]) or a result, the new world and the callbacks it
    invoked, in order. *)

Definition Eng (A : Type) : Type := World -> option (A * World * Trace).

Definition ret {A} (a : A) : Eng A := fun w => Some (a, w, []).

Definition bind {A B} (m : Eng A) (k : A -> Eng B) : Eng B :=
  fun w =>
    match m w with
    | None => None
    | Some (a, w1, t1) =>
        match k a w1 with
        | None => None
        | Some (b, w2, t2) => Some (b, w2, t1 ++ t2)
        end
    end.

Notation "x <- m ;; k" := (bind m (fun x => k))
  (at level 61, m at next level, right associativity).
Notation "m ;; k" := (bind m (fun _ => k))
  (at level 61, right associativity).

Definition throw {A} : Eng A := fun _ => None.

(** Read [this]. *)
Definition this : Eng GameEngine := fun w => Some (eng w, w, []).

(** [this.f = v], as one of the [set_f v]. *)
Definition assign (f : GameEngine -> GameEngine) : Eng unit :=
  fun w => Some (tt, {| eng := f (eng w); host := host w |}, []).

(** Invoke a registered callback. *)
Definition call (n : Notification) : Eng unit := fun w => Some (tt, w, [n]).

Definition skip : Eng unit := ret tt.

(** [l.forEach(f)], for a body [f] that leaves [l] itself alone. *)
Fixpoint forEach {A} (l : list A) (f : A -> Eng unit) : Eng unit :=
  match l with
  | [] => skip
  | a :: l' => f a ;; forEach l' f
  end.

(** *** Host timers *)

Definition with_host (f : Host -> Host) : Eng unit :=
  fun w => Some (tt, {| eng := eng w; host := f (host w) |}, []).

Definition fresh : Eng Handle :=
  fun w =>
    let h := nextHandle (host w) in
    Some (h, {| eng := eng w;
                host := {| nextHandle := Pos.succ h; intervals := intervals (host w);
                           timeouts := timeouts (host w); frames := frames (host w) |} |}, []).

(** Cancelling removes the id from the pending ones (and does nothing when
    it is not among them). *)
Definition drop (h : Handle) (l : list Handle) : list Handle :=
  filter (fun h' => negb (Pos.eqb h' h)) l.

Definition drop_interval (h : Handle) (l : list (Handle * Z)) : list (Handle * Z) :=
  filter (fun p => negb (Pos.eqb (fst p) h)) l.

Definition setInterval (delay : Z) : Eng Handle :=
  h <- fresh ;;
  with_host (fun o => {| nextHandle := nextHandle o; intervals := intervals o ++ [(h, delay)];
                         timeouts := timeouts o; frames := frames o |}) ;;
  ret h.

Definition clearInterval (h : Handle) : Eng unit :=
  with_host (fun o => {| nextHandle := nextHandle o; intervals := drop_interval h (intervals o);
                         timeouts := timeouts o; frames := frames o |}).

(** [setTimeout(spawnItem, delay)]: the delay ([1500 + Math.random() * 1000])
    is not recorded, when a pending timeout fires is up to the host. *)
Definition setTimeout : Eng Handle :=
  h <- fresh ;;
  with_host (fun o => {| nextHandle := nextHandle o; intervals := intervals o;
                         timeouts := timeouts o ++ [h]; frames := frames o |}) ;;
  ret h.

Definition clearTimeout (h : Handle) : Eng unit :=
  with_host (fun o => {| nextHandle := nextHandle o; intervals := intervals o;
                         timeouts := drop h (timeouts o); frames := frames o |}).

Definition requestAnimationFrame : Eng Handle :=
  h <- fresh ;;
  with_host (fun o => {| nextHandle := nextHandle o; intervals := intervals o;
                         timeouts := timeouts o; frames := frames o ++ [h] |}) ;;
  ret h.

Definition cancelAnimationFrame (h : Handle) : Eng unit :=
  with_host (fun o => {| nextHandle := nextHandle o; intervals := intervals o;
                         timeouts := timeouts o; frames := drop h (frames o) |}).

(** ** The methods of [GameEngine] *)

(** What one [createItem] reads from the environment: the key returned by
    [selectItemType()], the zone returned by [selectRandomZone()] and
    [Date.now()]. *)
Record Draw := { drawType : ItemType; drawZone : Zone; drawNow : Z }.

Definition notifyScoreChange : Eng unit :=
  e <- this ;;
  if onScoreChange e
  then call (ScoreChange (score e) (level e) (missCount e) (maxMisses e) (combo e))
  else skip.

Definition endGame (reason : string) : Eng unit :=
  assign (set_isGameActive false) ;;
  e <- this ;;
  match levelUpTimer e with
  | Some h => clearInterval h ;; assign (set_levelUpTimer None)
  | None => skip
  end ;;
  e <- this ;;
  match itemSpawnTimer e with
  | Some h => clearTimeout h ;; assign (set_itemSpawnTimer None)
  | None => skip
  end ;;
  e <- this ;;
  match animationId e with
  | Some h => cancelAnimationFrame h ;; assign (set_animationId None)
  | None => skip
  end ;;
  e <- this ;;
  if onGameEnd e
  then call (GameEnd reason (score e) (level e) (fruitsCaught e))
  else skip.

(** The guarded call [if (this.onItemRemove) { this.onItemRemove(i); }], which
    the source writes inline in both [stop] and [updateItems]. *)
Definition notifyItemRemove (i : Z) : Eng unit :=
  e <- this ;;
  if onItemRemove e then call (ItemRemove i) else skip.

Definition stop : Eng unit :=
  assign (set_isGameActive false) ;;
  e <- this ;;
  match levelUpTimer e with
  | Some h => clearInterval h ;; assign (set_levelUpTimer None)
  | None => skip
  end ;;
  e <- this ;;
  match itemSpawnTimer e with
  | Some h => clearTimeout h ;; assign (set_itemSpawnTimer None)
  | None => skip
  end ;;
  e <- this ;;
  match animationId e with
  | Some h => cancelAnimationFrame h ;; assign (set_animationId None)
  | None => skip
  end ;;
  e <- this ;;
  forEach (items e) (fun item => notifyItemRemove (id item)) ;;
  assign (set_items []).

(** The period passed to [setInterval] in [startLevelUpTimer]. *)
Definition levelUpPeriod : Z := 20000.

(** The arrow function handed to [setInterval]. *)
Definition levelUpTick : Eng unit :=
  e <- this ;;
  if level e <? 5
  then assign (set_level (level e + 1)) ;; notifyScoreChange
  else skip.

Definition startLevelUpTimer : Eng unit :=
  h <- setInterval levelUpPeriod ;;
  assign (set_levelUpTimer (Some h)).

Definition createItem (d : Draw) : Eng unit :=
  e <- this ;;
  let item := {| id := itemIdCounter e; type := drawType d; zone := drawZone d;
                 y := 0; createdAt := drawNow d |} in
  assign (set_itemIdCounter (itemIdCounter e + 1)) ;;
  assign (fun e => set_items (items e ++ [item]) e) ;;
  e <- this ;;
  if onItemCreate e
  then match levelConfig (Z.min (level e) 5) with
       | Some config => call (ItemCreate item (fallDuration config))
       | None => throw
       end
  else skip.

(** The closure [spawnItem] of [startItemSpawning]. *)
Definition spawnItem (d : Draw) : Eng unit :=
  e <- this ;;
  if negb (isGameActive e) then skip
  else
    createItem d ;;
    h <- setTimeout ;;
    assign (set_itemSpawnTimer (Some h)).

Definition startItemSpawning (d : Draw) : Eng unit := spawnItem d.

Definition Zone_eqb (a b : Zone) : bool :=
  match a, b with
  | LEFT, LEFT | CENTER, CENTER | RIGHT, RIGHT => true
  | _, _ => false
  end.

(** [===] on the values [basketPosition] can hold. *)
Definition Position_eqb (p q : Position) : bool :=
  match p, q with
  | InZone a, InZone b => Zone_eqb a b
  | Inherited k, Inherited k' => String.eqb k k'
  | _, _ => false
  end.

Definition checkCollision (e : GameEngine) (item : Item) : bool :=
  Position_eqb (InZone (zone item)) (basketPosition e).

(** The reason strings passed to [endGame]. *)
Definition reason_bomb : string := "폭탄을 받았습니다!".
Definition reason_misses : string := "과일을 3번 놓쳤습니다!".

Definition handleItemCatch (item : Item) : Eng unit :=
  let itemData := itemTypes (type item) in
  if isFruit itemData then
    e <- this ;;
    assign (set_score (score e + itemScore itemData)) ;;
    assign (set_combo (combo e + 1)) ;;
    assign (set_fruitsCaught (fruitsCaught e + 1)) ;;
    e <- this ;;
    (if combo e =? 5 then assign (set_score (score e + 50))
     else if combo e =? 10 then assign (set_score (score e + 100))
     else skip) ;;
    notifyScoreChange
  else
    endGame reason_bomb.

Definition handleItemMiss (item : Item) : Eng unit :=
  let itemData := itemTypes (type item) in
  if isFruit itemData then
    e <- this ;;
    assign (set_missCount (missCount e + 1)) ;;
    assign (set_combo 0) ;;
    notifyScoreChange ;;
    e <- this ;;
    if maxMisses e <=? missCount e then endGame reason_misses else skip
  else
    skip.

(** [progress >= 1.0] with [progress = elapsed / config.fallDuration]: both
    operands are integers and every [fallDuration] of the table is positive,
    so the quotient reaches 1 exactly when [elapsed] reaches the duration. *)
Definition landed (config : LevelConfig) (now : Z) (item : Item) : bool :=
  fallDuration config <=? now - createdAt item.

(** The first [forEach] of [updateItems] over a list of items; its result is
    what it pushed onto [itemsToRemove].  [config] is [undefined] ([None])
    when the level has no entry, and reading [config.fallDuration] throws. *)
Fixpoint resolveItems (config : option LevelConfig) (now : Z) (l : list Item)
  : Eng (list Z) :=
  match l with
  | [] => ret []
  | item :: rest =>
      hit <- match config with
             | Some c => ret (landed c now item)
             | None => throw
             end ;;
      pushed <- (if hit : bool then
                   e <- this ;;
                   (if checkCollision e item
                    then handleItemCatch item
                    else handleItemMiss item) ;;
                   ret [id item]
                 else ret []) ;;
      more <- resolveItems config now rest ;;
      ret (pushed ++ more)
  end.

(** [findIndex(item => item.id === i)] followed by [splice(index, 1)] when
    an index was found. *)
Fixpoint removeById (i : Z) (l : list Item) : list Item :=
  match l with
  | [] => []
  | item :: rest => if id item =? i then rest else item :: removeById i rest
  end.

Definition updateItems (now : Z) : Eng unit :=
  e <- this ;;
  let config := levelConfig (Z.min (level e) 5) in
  itemsToRemove <- resolveItems config now (items e) ;;
  forEach itemsToRemove (fun i =>
    assign (fun e => set_items (removeById i (items e)) e) ;;
    notifyItemRemove i).

Definition gameLoop (now : Z) : Eng unit :=
  e <- this ;;
  if negb (isGameActive e) then skip
  else
    updateItems now ;;
    h <- requestAnimationFrame ;;
    assign (set_animationId (Some h)).

(** [start()]; [t0] is the [Date.now()] stored in [gameStartTime], [d] what
    the first [createItem] draws and [tLoop] the [Date.now()] of the first
    [updateItems]. *)
Definition start (t0 : Z) (d : Draw) (tLoop : Z) : Eng unit :=
  assign (set_isGameActive true) ;;
  assign (set_score 0) ;;
  assign (set_level 1) ;;
  assign (set_missCount 0) ;;
  assign (set_combo 0) ;;
  assign (set_fruitsCaught 0) ;;
  assign (set_basketPosition (InZone CENTER)) ;;
  assign (set_items []) ;;
  assign (set_itemIdCounter 0) ;;
  assign (set_gameStartTime t0) ;;
  notifyScoreChange ;;
  startLevelUpTimer ;;
  startItemSpawning d ;;
  gameLoop tLoop.

(** The own keys of the object literal [poseToZone]. *)
Definition poseToZone_own (pose : string) : option Zone :=
  if String.eqb pose "좌" then Some LEFT
  else if String.eqb pose "중앙" then Some CENTER
  else if String.eqb pose "우" then Some RIGHT
  else None.

(** The property names of [Object.prototype], which every object literal
    inherits. *)
Definition object_prototype_keys : list string :=
  [ "constructor"; "hasOwnProperty"; "isPrototypeOf"; "propertyIsEnumerable";
    "toLocaleString"; "toString"; "valueOf"; "__proto__";
    "__defineGetter__"; "__defineSetter__"; "__lookupGetter__"; "__lookupSetter__" ].

(** [poseToZone[pose]]: an own key first, then the prototype; [None] is
    [undefined]. *)
Definition poseToZone (pose : string) : option Position :=
  match poseToZone_own pose with
  | Some z => Some (InZone z)
  | None =>
      if existsb (String.eqb pose) object_prototype_keys
      then Some (Inherited pose)
      else None
  end.

Definition onPoseDetected (pose : string) : Eng unit :=
  e <- this ;;
  if negb (isGameActive e) then skip
  else
    match poseToZone pose with
    | Some newPosition =>
        if negb (Position_eqb newPosition (basketPosition e)) then
          assign (set_basketPosition newPosition) ;;
          e <- this ;;
          if onBasketMove e then call (BasketMove (basketPosition e)) else skip
        else skip
    | None => skip
    end.

(** [getGameState()] *)
Record GameState := {
  gsIsActive : bool; gsScore : Z; gsLevel : Z; gsMissCount : Z; gsMaxMisses : Z;
  gsCombo : Z; gsBasketPosition : Position; gsFruitsCaught : Z
}.

Definition getGameState (e : GameEngine) : GameState :=
  {| gsIsActive := isGameActive e; gsScore := score e; gsLevel := level e;
     gsMissCount := missCount e; gsMaxMisses := maxMisses e; gsCombo := combo e;
     gsBasketPosition := basketPosition e; gsFruitsCaught := fruitsCaught e |}.

(** ** The event loop

    What can happen to an engine: a call of a public method by the page, or
    the host running one of the pending timer callbacks. *)

Inductive Event :=
| EvSetCallback (k : Slot) (registered : bool) (* one of the five setXCallback(f), f a function or null *)
| EvStart (t0 : Z) (d : Draw) (tLoop : Z)      (* start() *)
| EvStop                                       (* stop() *)
| EvPose (pose : string)                       (* onPoseDetected(pose) *)
| EvInterval (h : Handle)                      (* the interval h fires: level-up callback *)
| EvTimeout (h : Handle) (d : Draw)            (* the timeout h fires: spawnItem() *)
| EvFrame (h : Handle) (now : Z).              (* the frame h fires: gameLoop(), Date.now() = now *)

Inductive Outcome :=
| Done (w : World) (tr : Trace)
| Threw
| NotPending.

Definition finish (r : option (unit * World * Trace)) : Outcome :=
  match r with
  | Some (_, w, tr) => Done w tr
  | None => Threw
  end.

Definition mem (h : Handle) (l : list Handle) : bool := existsb (Pos.eqb h) l.

(** A timeout or an animation frame is one-shot: the host forgets it when it
    runs its callback.  An interval stays armed. *)
Definition timeout_fired (h : Handle) : Eng unit := clearTimeout h.
Definition frame_fired (h : Handle) : Eng unit := cancelAnimationFrame h.

(** [step w ev] is [NotPending] when [ev] asks for a timer callback that the
    host does not hold (it was cancelled, or never armed): such an event
    cannot happen.  [Threw] is an uncaught exception of the engine's code. *)
Definition step (w : World) (ev : Event) : Outcome :=
  match ev with
  | EvSetCallback k v => finish (assign (set_callback k v) w)
  | EvStart t0 d tLoop => finish (start t0 d tLoop w)
  | EvStop => finish (stop w)
  | EvPose pose => finish (onPoseDetected pose w)
  | EvInterval h =>
      if mem h (map fst (intervals (host w)))
      then finish (levelUpTick w)
      else NotPending
  | EvTimeout h d =>
      if mem h (timeouts (host w))
      then finish ((timeout_fired h ;; spawnItem d) w)
      else NotPending
  | EvFrame h now =>
      if mem h (frames (host w))
      then finish ((frame_fired h ;; gameLoop now) w)
      else NotPending
  end.

(** Running a list of events; the traces are concatenated. *)
Fixpoint run (w : World) (evs : list Event) : Outcome :=
  match evs with
  | [] => Done w []
  | ev :: rest =>
      match step w ev with
      | Done w1 t1 =>
          match run w1 rest with
          | Done w2 t2 => Done w2 (t1 ++ t2)
          | o => o
          end
      | o => o
      end
  end.

(** A freshly constructed engine in a page with no timers. *)
Definition new_world : World := {| eng := constructor; host := idle_host |}.

(** [setupGameCallbacks()] of src/js/main.js: all five slots registered. *)
Definition setupGameCallbacks : list Event :=
  [ EvSetCallback SlotScoreChange true; EvSetCallback SlotItemCreate true;
    EvSetCallback SlotItemRemove true; EvSetCallback SlotBasketMove true;
    EvSetCallback SlotGameEnd true ].

(** The worlds a page can bring a fresh engine to. *)
Inductive reachable : World -> Prop :=
| reach_new : reachable new_world
| reach_step w ev w' tr : reachable w -> step w ev = Done w' tr -> reachable w'.

(** ** Closed forms

    The worlds and traces that the method bodies compute, used to state what
    a call returns. *)

(** Method calls are stepped with their closed forms, not by unfolding. *)
Arguments notifyScoreChange : simpl never.
Arguments notifyItemRemove : simpl never.
Arguments endGame : simpl never.
Arguments stop : simpl never.
Arguments levelUpTick : simpl never.
Arguments createItem : simpl never.
Arguments spawnItem : simpl never.
Arguments handleItemCatch : simpl never.
Arguments handleItemMiss : simpl never.
Arguments updateItems : simpl never.
Arguments gameLoop : simpl never.
Arguments onPoseDetected : simpl never.
Arguments start : simpl never.
Arguments checkCollision : simpl never.
Arguments startItemSpawning : simpl never.

(** The trace of a guarded callback invocation [if (this.onX) this.onX(n)]. *)
Definition notes (registered : bool) (n : Notification) : Trace :=
  if registered then [n] else [].

(** The engine after [endGame] or [stop] have cancelled everything. *)
Definition halted (e : GameEngine) : GameEngine :=
  set_animationId None (set_itemSpawnTimer None (set_levelUpTimer None
    (set_isGameActive false e))).

(** The host after the timers named by the engine's three handles have been
    cancelled. *)
Definition released (e : GameEngine) (o : Host) : Host :=
  {| nextHandle := nextHandle o;
     intervals := match levelUpTimer e with
                  | Some h => drop_interval h (intervals o)
                  | None => intervals o
                  end;
     timeouts := match itemSpawnTimer e with
                 | Some h => drop h (timeouts o)
                 | None => timeouts o
                 end;
     frames := match animationId e with
               | Some h => drop h (frames o)
               | None => frames o
               end |}.

(** The bonus [handleItemCatch] adds when the combo has just become [c]. *)
Definition comboBonus (c : Z) : Z :=
  if c =? 5 then 50 else if c =? 10 then 100 else 0.

(** The counters after a missed fruit, before [handleItemMiss] compares
    them with the limit. *)
Definition missed (e : GameEngine) : GameEngine :=
  set_combo 0 (set_missCount (missCount e + 1) e).

(** The item built by [createItem] in engine state [e]. *)
Definition newItem (d : Draw) (e : GameEngine) : Item :=
  {| id := itemIdCounter e; type := drawType d; zone := drawZone d;
     y := 0; createdAt := drawNow d |}.

(** The engine after [createItem]. *)
Definition pushed (d : Draw) (e : GameEngine) : GameEngine :=
  set_items (items e ++ [newItem d e]) (set_itemIdCounter (itemIdCounter e + 1) e).

(** The collection after the second [forEach] of [updateItems] has spliced
    out the ids [ids]. *)
Definition evict (ids : list Z) (l : list Item) : list Item :=
  fold_left (fun l i => removeById i l) ids l.

(** One iteration of the first [forEach] of [updateItems] on a landed item. *)
Definition resolve (item : Item) : Eng unit :=
  e <- this ;;
  if checkCollision e item then handleItemCatch item else handleItemMiss item.

(** What the scan of [updateItems] does to the world: the landed items are
    resolved one after the other, in collection order. *)
Fixpoint resolveAll (l : list Item) : Eng unit :=
  match l with
  | [] => skip
  | item :: rest => resolve item ;; resolveAll rest
  end.

(** The ids an [onItemCreate] / [onItemRemove] callback was called with. *)
Definition created_ids (t : Trace) : list Z :=
  flat_map (fun n => match n with ItemCreate it _ => [id it] | _ => [] end) t.

Definition removed_ids (t : Trace) : list Z :=
  flat_map (fun n => match n with ItemRemove i => [i] | _ => [] end) t.

(** What the resolution of items leaves alone: the collection, the id
    counter, the level, the limit, the basket, the callback slots and the
    host's id supply; it creates and removes no item, and it never turns an
    inactive engine active. *)
Record steady (w w' : World) (t : Trace) : Prop := {
  st_items : items (eng w') = items (eng w);
  st_counter : itemIdCounter (eng w') = itemIdCounter (eng w);
  st_level : level (eng w') = level (eng w);
  st_maxMisses : maxMisses (eng w') = maxMisses (eng w);
  st_basket : basketPosition (eng w') = basketPosition (eng w);
  st_slots : forall k, slot k (eng w') = slot k (eng w);
  st_next : nextHandle (host w') = nextHandle (host w);
  st_active : isGameActive (eng w') = true -> isGameActive (eng w) = true;
  st_created : created_ids t = [];
  st_removed : removed_ids t = []
}.

(** The part of the state invariant that concerns the miss counter. *)
Definition missInv (e : GameEngine) : Prop :=
  maxMisses e = 3 /\ 0 <= missCount e /\
  (maxMisses e <= missCount e -> isGameActive e = false).

(** The engine and host after [spawnItem] has pushed an item and re-armed
    its timeout. *)
Definition spawned (d : Draw) (w : World) : World :=
  let h := nextHandle (host w) in
  {| eng := set_itemSpawnTimer (Some h) (pushed d (eng w));
     host := {| nextHandle := Pos.succ h; intervals := intervals (host w);
                timeouts := timeouts (host w) ++ [h]; frames := frames (host w) |} |}.

(** The world after [gameLoop] has asked for the next frame. *)
Definition looped (w : World) : World :=
  let h := nextHandle (host w) in
  {| eng := set_animationId (Some h) (eng w);
     host := {| nextHandle := Pos.succ h; intervals := intervals (host w);
                timeouts := timeouts (host w); frames := frames (host w) ++ [h] |} |}.

(** The world in which [start] calls [startItemSpawning]: every field reset,
    the level-up interval armed. *)
Definition restarted (t0 : Z) (w : World) : World :=
  let h := nextHandle (host w) in
  {| eng := set_levelUpTimer (Some h) (set_gameStartTime t0 (set_itemIdCounter 0
              (set_items [] (set_basketPosition (InZone CENTER) (set_fruitsCaught 0
                (set_combo 0 (set_missCount 0 (set_level 1 (set_score 0
                  (set_isGameActive true (eng w)))))))))));
     host := {| nextHandle := Pos.succ h;
                intervals := intervals (host w) ++ [(h, levelUpPeriod)];
                timeouts := timeouts (host w); frames := frames (host w) |} |}.

(** The level has an entry in [levelConfig]. *)
Definition levelOK (e : GameEngine) : Prop := 1 <= level e <= 5.

(** [swept now w w' t]: [updateItems] at time [now] takes [w] to [w'] with
    trace [t]: the landed items were resolved (reaching [w1]), then evicted
    and reported. *)
Definition swept (now : Z) (w w' : World) (t : Trace) : Prop :=
  exists c w1 t1,
    levelConfig (Z.min (level (eng w)) 5) = Some c /\
    resolveAll (filter (landed c now) (items (eng w))) w = Some (tt, w1, t1) /\
    steady w w1 t1 /\
    (missInv (eng w) -> missInv (eng w1)) /\
    let ids := map id (filter (landed c now) (items (eng w))) in
    w' = {| eng := set_items (evict ids (items (eng w))) (eng w1); host := host w1 |} /\
    t = t1 ++ (if onItemRemove (eng w) then map ItemRemove ids else []).

(** The world in which the callback of the fired timeout (frame) [h] runs. *)
Definition without_timeout (h : Handle) (w : World) : World :=
  {| eng := eng w;
     host := {| nextHandle := nextHandle (host w); intervals := intervals (host w);
                timeouts := drop h (timeouts (host w)); frames := frames (host w) |} |}.

Definition without_frame (h : Handle) (w : World) : World :=
  {| eng := eng w;
     host := {| nextHandle := nextHandle (host w); intervals := intervals (host w);
                timeouts := timeouts (host w); frames := drop h (frames (host w)) |} |}.

(** ** Invariants *)

(** The state invariant. *)
Definition Inv (e : GameEngine) : Prop := levelOK e /\ missInv e.

(** The ids 0, 1, ..., n-1. *)
Definition ids_below (n : Z) : list Z := map Z.of_nat (seq 0 (Z.to_nat n)).

(** The bookkeeping of one session, for the trace [tr] emitted since its
    [start()]: the created ids are 0 .. counter-1 in order, and each of them
    has either been reported removed once or is still in the collection. *)
Record Ledger (e : GameEngine) (tr : Trace) : Prop := {
  lg_create : onItemCreate e = true;
  lg_remove : onItemRemove e = true;
  lg_level : levelOK e;
  lg_counter : 0 <= itemIdCounter e;
  lg_created : created_ids tr = ids_below (itemIdCounter e);
  lg_balance : Permutation (removed_ids tr ++ map id (items e)) (created_ids tr)
}.

(** The events of a running session: everything but a restart and a change
    of the callback wiring. *)
Definition in_session (ev : Event) : bool :=
  match ev with
  | EvStart _ _ _ | EvSetCallback _ _ => false
  | _ => true
  end.



(** The events other than a call of [start()] or [stop()]. *)
Definition idle_event (ev : Event) : bool :=
  match ev with
  | EvStart _ _ _ | EvStop => false
  | _ => true
  end.



(** ** Scenarios *)

(** The page after [setupGameCallbacks()]: every slot registered. *)
Definition wired_world : World :=
  {| eng := set_callback SlotGameEnd true (set_callback SlotBasketMove true
              (set_callback SlotItemRemove true (set_callback SlotItemCreate true
                (set_callback SlotScoreChange true constructor))));
     host := idle_host |}.

Definition draw (ty : ItemType) (z : Zone) (now : Z) : Draw :=
  {| drawType := ty; drawZone := z; drawNow := now |}.

(** Four apples spawned 1500 ms apart in the left lane while the basket
    stays in the centre, and no animation frame until 8500 ms (the page was
    in a background tab, where timeouts still run but frames do not). *)
Definition late_frame : list Event :=
  [ EvStart 0 (draw apple LEFT 0) 0;
    EvTimeout 2%positive (draw apple LEFT 1500);
    EvTimeout 4%positive (draw apple LEFT 3000);
    EvTimeout 5%positive (draw apple LEFT 4500);
    EvFrame 3%positive 8500 ].

(** An apple is caught, then a bomb. *)
Definition apple_then_bomb : list Event :=
  [ EvStart 0 (draw apple CENTER 0) 0;
    EvTimeout 2%positive (draw bomb CENTER 1500);
    EvFrame 3%positive 4000;
    EvFrame 5%positive 5500 ].

(** A bomb is caught while an apple is still falling. *)
Definition bomb_with_apple_airborne : list Event :=
  [ EvStart 0 (draw bomb CENTER 0) 0;
    EvTimeout 2%positive (draw apple LEFT 1500);
    EvFrame 3%positive 4000 ].

(** A short session that is stopped by the page. *)
Definition stopped_session : list Event :=
  [ EvTimeout 2%positive (draw banana RIGHT 1500);
    EvPose "우";
    EvFrame 3%positive 4000;
    EvStop ].

(** The world right after [start()] in the wired page. *)
Definition started_world : World :=
  match step wired_world (EvStart 0 (draw apple LEFT 0) 0) with
  | Done w _ => w
  | _ => wired_world
  end.

(** The world after one apple has been caught in the wired page: the game
    is running with combo 1. *)
Definition apple_caught_world : World :=
  match run wired_world (firstn 3 apple_then_bomb) with
  | Done w _ => w
  | _ => wired_world
  end.

(** How often the host runs the callback of an interval of period [period]
    in [elapsed] ms. *)
Definition interval_firings (period elapsed : Z) : nat := Z.to_nat (elapsed / period).

(** [n] runs of a callback. *)
Fixpoint fire (n : nat) (m : Eng unit) : Eng unit :=
  match n with
  | O => skip
  | S n' => m ;; fire n' m
  end.

(** The bonus earned over [n] consecutive catches that start at combo [c]:
    a threshold pays when the streak passes it. *)
Definition streakBonus (c n : Z) : Z :=
  (if (c <? 5) && (5 <=? c + n) then 50 else 0) +
  (if (c <? 10) && (10 <=? c + n) then 100 else 0).

(** The catalog values of the items of [l], added up. *)
Definition scoreSum (l : list Item) : Z :=
  fold_right (fun item acc => itemScore (itemTypes (type item)) + acc) 0 l.

Definition allFruit (l : list Item) : bool :=
  forallb (fun item => isFruit (itemTypes (type item))) l.




(** ** The rest of the engine and of the page *)

(** [selectItemType()].  [rand] is what [Math.random()] returned, a JS
    number, here a binary64 float with the IEEE addition and comparison of
    the source.  [probabilities] is the table of the level's bracket, in
    the order [Object.entries] walks it. *)
#[warnings="-inexact-float"]
Definition probabilities (level : Z) : list (ItemType * float) :=
  if level <=? 2 then
    [ (apple, 0.40%float); (banana, 0.30%float); (watermelon, 0.20%float);
      (cherry, 0.05%float); (bomb, 0.05%float) ]
  else if level <=? 4 then
    [ (apple, 0.30%float); (banana, 0.25%float); (watermelon, 0.25%float);
      (cherry, 0.10%float); (bomb, 0.10%float) ]
  else
    [ (apple, 0.25%float); (banana, 0.20%float); (watermelon, 0.20%float);
      (cherry, 0.15%float); (bomb, 0.20%float) ].

(** The [for ... of] loop: [None] when it falls through. *)
Fixpoint walk (rand cumulative : float) (entries : list (ItemType * float))
  : option ItemType :=
  match entries with
  | [] => None
  | (ty, prob) :: rest =>
      let cumulative := (cumulative + prob)%float in
      if (rand <? cumulative)%float then Some ty else walk rand cumulative rest
  end.

Definition selectItemType (e : GameEngine) (rand : float) : ItemType :=
  let level := Z.min (level e) 5 in
  match walk rand 0%float (probabilities level) with
  | Some ty => ty
  | None => apple
  end.

(** The fourth cumulative sum of the level's table: the draws from it on
    give the bomb. *)
Definition bombThreshold (level : Z) : float :=
  fold_left (fun acc p => (acc + snd p)%float) (firstn 4 (probabilities level)) 0%float.

(** What [stop()] of src/js/main.js does to the engine (it also stops the
    pose engine, resets the stabilizer and toggles two buttons, none of
    which touches the engine): [if (gameEngine && gameEngine.isGameActive)
    gameEngine.stop()], for the engine that [init()] has created. *)
Definition pageStop : Eng unit :=
  e <- this ;;
  if isGameActive e then stop else skip.

(** The collection holds its items in creation order: ids strictly
    increasing, all of them below the id counter. *)
Definition ordered (e : GameEngine) : Prop :=
  StronglySorted Z.lt (map id (items e)) /\
  Forall (fun i => 0 <= i < itemIdCounter e) (map id (items e)) /\
  0 <= itemIdCounter e.

(** The counters of the scoreboard fit together. *)
Definition tally (e : GameEngine) : Prop :=
  0 <= combo e <= fruitsCaught e /\ 100 * fruitsCaught e <= score e.

(** No counter of [e'] is below that of [e]. *)
Definition counters_le (e e' : GameEngine) : Prop :=
  score e <= score e' /\ level e <= level e' /\ missCount e <= missCount e' /\
  fruitsCaught e <= fruitsCaught e' /\ itemIdCounter e <= itemIdCounter e'.

(** The handle [o] is set and the host still holds it. *)
Definition pending_in (o : option Handle) (l : list Handle) : Prop :=
  exists h, o = Some h /\ mem h l = true.

(** An active engine has its level-up interval and its spawn timeout
    pending; an inactive one holds neither handle. *)
Definition timersOK (w : World) : Prop :=
  if isGameActive (eng w)
  then pending_in (levelUpTimer (eng w)) (map fst (intervals (host w))) /\
       pending_in (itemSpawnTimer (eng w)) (timeouts (host w))
  else levelUpTimer (eng w) = None /\ itemSpawnTimer (eng w) = None.

(** An active engine has its next animation frame pending. *)
Definition frameOK (w : World) : Prop :=
  isGameActive (eng w) = true -> pending_in (animationId (eng w)) (frames (host w)).

Definition isGameEnd (n : Notification) : bool :=
  match n with GameEnd _ _ _ _ => true | _ => false end.

(** What holds between any two events of a page, besides [Inv]. *)
Definition Good (w : World) : Prop :=
  ordered (eng w) /\ tally (eng w) /\ timersOK w /\ frameOK w.

(** The events that call [start()]. *)
Definition restarts (ev : Event) : bool :=
  match ev with
  | EvStart _ _ _ => true
  | _ => false
  end.

(** The one-shot callbacks and the pose input. *)
Definition passive (ev : Event) : bool :=
  match ev with
  | EvPose _ | EvTimeout _ _ | EvFrame _ _ => true
  | _ => false
  end.

(** How many one-shot callbacks the host still holds. *)
Definition one_shots (o : Host) : nat := (List.length (timeouts o) + List.length (frames o))%nat.

(** The world [start()] leaves when its first item has not landed in its
    first tick. *)
Definition fresh_session (t0 : Z) (d : Draw) (w : World) : World :=
  looped (spawned d (restarted t0 w)).

(** What [notifyScoreChange()] hands to the score callback in state [e]. *)
Definition scoreboard (e : GameEngine) : Notification :=
  ScoreChange (score e) (level e) (missCount e) (maxMisses e) (combo e).

Definition isScoreChange (n : Notification) : bool :=
  match n with ScoreChange _ _ _ _ _ => true | _ => false end.

(** What a score display shows after the calls of [tr], when it showed
    [before]: the argument of the last call of the score callback. *)
Fixpoint display (before : option Notification) (tr : Trace) : option Notification :=
  match tr with
  | [] => before
  | n :: rest => display (if isScoreChange n then Some n else before) rest
  end.

(** The events that leave the score callback registered as it is. *)
Definition keeps_score_slot (ev : Event) : bool :=
  match ev with
  | EvSetCallback SlotScoreChange _ => false
  | _ => true
  end.

(** What [handlePrediction()] of src/js/main.js does to the engine, for the
    class name [className] (a string, empty when the stabilizer has not
    settled on a class) that the stabilizer returned:
    [if (gameEngine && gameEngine.isGameActive && stabilized.className)
    gameEngine.onPoseDetected(stabilized.className)].  The rest of the
    function writes to the page only. *)
Definition handlePrediction (className : string) : Eng unit :=
  e <- this ;;
  if isGameActive e && negb (String.eqb className "")
  then onPoseDetected className
  else skip.

(** * Properties *)

(** ** Stepping through method bodies *)

Ltac eng_unfold :=
  unfold bind, this, assign, call, skip, ret, throw, with_host, fresh in *.

(** *** Closed forms of the leaf methods *)

Lemma notifyScoreChange_eq w :
  notifyScoreChange w =
  Some (tt, w, notes (onScoreChange (eng w))
                 (ScoreChange (score (eng w)) (level (eng w)) (missCount (eng w))
                              (maxMisses (eng w)) (combo (eng w)))).
Proof.
  unfold notifyScoreChange, bind, this, notes. cbn.
  destruct (onScoreChange (eng w)); reflexivity.
Qed.

Lemma endGame_eq reason w :
  endGame reason w =
  Some (tt, {| eng := halted (eng w); host := released (eng w) (host w) |},
        notes (onGameEnd (eng w))
          (GameEnd reason (score (eng w)) (level (eng w)) (fruitsCaught (eng w)))).
Proof.
  destruct w as [e o]; destruct e, o; unfold endGame, bind, halted, released, notes; cbn.
  destruct levelUpTimer0, itemSpawnTimer0, animationId0, onGameEnd0; reflexivity.
Qed.

Lemma notifyItemRemove_eq i w :
  notifyItemRemove i w = Some (tt, w, notes (onItemRemove (eng w)) (ItemRemove i)).
Proof.
  unfold notifyItemRemove, bind, this, notes. cbn.
  destruct (onItemRemove (eng w)); reflexivity.
Qed.

Lemma forEach_notifyItemRemove (l : list Item) w :
  forEach l (fun item => notifyItemRemove (id item)) w =
  Some (tt, w, if onItemRemove (eng w) then map (fun item => ItemRemove (id item)) l else []).
Proof.
  induction l as [|a l IH]; cbn.
  - destruct (onItemRemove (eng w)); reflexivity.
  - unfold bind. rewrite notifyItemRemove_eq, IH. unfold notes.
    destruct (onItemRemove (eng w)); reflexivity.
Qed.

Lemma stop_eq w :
  stop w =
  Some (tt, {| eng := set_items [] (halted (eng w)); host := released (eng w) (host w) |},
        if onItemRemove (eng w) then map (fun item => ItemRemove (id item)) (items (eng w))
        else []).
Proof.
  destruct w as [e o]; destruct e, o; unfold stop, bind, halted, released; cbn.
  destruct levelUpTimer0, itemSpawnTimer0, animationId0; cbn;
    rewrite forEach_notifyItemRemove; cbn; destruct onItemRemove0; cbn;
    rewrite ?app_nil_r; reflexivity.
Qed.

Lemma handleItemCatch_fruit_eq item w :
  isFruit (itemTypes (type item)) = true ->
  let e := eng w in
  let e' := set_fruitsCaught (fruitsCaught e + 1) (set_combo (combo e + 1)
              (set_score (score e + itemScore (itemTypes (type item))
                          + comboBonus (combo e + 1)) e)) in
  handleItemCatch item w =
  Some (tt, {| eng := e'; host := host w |},
        notes (onScoreChange e)
          (ScoreChange (score e') (level e) (missCount e) (maxMisses e) (combo e'))).
Proof.
  destruct w as [e o], e, item as [i ty z yy c].
  unfold handleItemCatch, notifyScoreChange, comboBonus, notes; eng_unfold; cbn.
  destruct ty; cbn; intros Hf; try discriminate;
    destruct (combo0 + 1 =? 5), (combo0 + 1 =? 10), onScoreChange0; cbn;
    repeat (f_equal; try lia).
Qed.

Lemma handleItemCatch_bomb_eq item w :
  isFruit (itemTypes (type item)) = false ->
  handleItemCatch item w = endGame reason_bomb w.
Proof.
  unfold handleItemCatch. now intros ->.
Qed.

Lemma handleItemMiss_bomb_eq item w :
  isFruit (itemTypes (type item)) = false ->
  handleItemMiss item w = Some (tt, w, []).
Proof.
  unfold handleItemMiss. now intros ->.
Qed.

Lemma handleItemMiss_fruit_eq item w :
  isFruit (itemTypes (type item)) = true ->
  let e1 := missed (eng w) in
  let n := notes (onScoreChange e1)
             (ScoreChange (score e1) (level e1) (missCount e1) (maxMisses e1) 0) in
  handleItemMiss item w =
  if maxMisses e1 <=? missCount e1
  then Some (tt, {| eng := halted e1; host := released e1 (host w) |},
             n ++ notes (onGameEnd e1)
                    (GameEnd reason_misses (score e1) (level e1) (fruitsCaught e1)))
  else Some (tt, {| eng := e1; host := host w |}, n).
Proof.
  intros Hf. unfold handleItemMiss. rewrite Hf.
  destruct w as [e o], e. unfold bind, missed; cbn.
  rewrite notifyScoreChange_eq; cbn.
  destruct (maxMisses0 <=? missCount0 + 1); cbn.
  - rewrite endGame_eq; cbn. reflexivity.
  - rewrite app_nil_r. reflexivity.
Qed.

Lemma levelUpTick_eq w :
  levelUpTick w =
  if level (eng w) <? 5
  then let e' := set_level (level (eng w) + 1) (eng w) in
       Some (tt, {| eng := e'; host := host w |},
             notes (onScoreChange e')
               (ScoreChange (score e') (level e') (missCount e') (maxMisses e') (combo e')))
  else Some (tt, w, []).
Proof.
  unfold levelUpTick, bind; cbn.
  destruct (level (eng w) <? 5); cbn; [|reflexivity].
  rewrite notifyScoreChange_eq; cbn. reflexivity.
Qed.

Lemma onPoseDetected_eq pose w :
  onPoseDetected pose w =
  if isGameActive (eng w) then
    match poseToZone pose with
    | Some p =>
        if Position_eqb p (basketPosition (eng w)) then Some (tt, w, [])
        else Some (tt, {| eng := set_basketPosition p (eng w); host := host w |},
                   notes (onBasketMove (eng w)) (BasketMove p))
    | None => Some (tt, w, [])
    end
  else Some (tt, w, []).
Proof.
  unfold onPoseDetected, bind, notes; cbn.
  destruct (isGameActive (eng w)); cbn; [|reflexivity].
  destruct (poseToZone pose) as [p|]; [|reflexivity].
  destruct (Position_eqb p (basketPosition (eng w))); cbn; [reflexivity|].
  destruct (onBasketMove (eng w)); reflexivity.
Qed.

Lemma mem_drop h l : mem h (drop h l) = false.
Proof.
  unfold mem, drop. induction l as [|a l IH]; cbn; [reflexivity|].
  destruct (Pos.eqb a h) eqn:E; cbn; rewrite ?E; cbn; [exact IH|].
  rewrite Pos.eqb_sym, E. exact IH.
Qed.

Lemma mem_drop_interval h l : mem h (map fst (drop_interval h l)) = false.
Proof.
  unfold mem, drop_interval. induction l as [|[a d] l IH]; cbn; [reflexivity|].
  destruct (Pos.eqb a h) eqn:E; cbn; [exact IH|].
  rewrite Pos.eqb_sym, E. exact IH.
Qed.

(** *** The spawner and the scan of [updateItems] *)

Lemma bind_inv {A B} (m : Eng A) (k : A -> Eng B) w b w2 t :
  bind m k w = Some (b, w2, t) ->
  exists a w1 t1 t2, m w = Some (a, w1, t1) /\ k a w1 = Some (b, w2, t2) /\ t = t1 ++ t2.
Proof.
  unfold bind. destruct (m w) as [[[a w1] t1]|]; [|discriminate].
  destruct (k a w1) as [[[b' w2'] t2]|] eqn:E; [|discriminate].
  intros H; injection H as <- <- <-. exists a, w1, t1, t2. auto.
Qed.

Lemma bind_eq {A B} (m : Eng A) (k : A -> Eng B) w a w1 t1 :
  m w = Some (a, w1, t1) ->
  bind m k w = match k a w1 with
               | Some (b, w2, t2) => Some (b, w2, t1 ++ t2)
               | None => None
               end.
Proof. unfold bind. now intros ->. Qed.

Lemma createItem_eq d w :
  createItem d w =
  if onItemCreate (eng w)
  then match levelConfig (Z.min (level (eng w)) 5) with
       | Some config =>
           Some (tt, {| eng := pushed d (eng w); host := host w |},
                 [ItemCreate (newItem d (eng w)) (fallDuration config)])
       | None => None
       end
  else Some (tt, {| eng := pushed d (eng w); host := host w |}, []).
Proof.
  unfold createItem, pushed, newItem; eng_unfold; cbn.
  destruct (onItemCreate (eng w)); [|reflexivity].
  destruct (levelConfig (Z.min (level (eng w)) 5)); reflexivity.
Qed.

Lemma levelConfig_defined l :
  1 <= l <= 5 -> exists c, levelConfig (Z.min l 5) = Some c /\ 0 < fallDuration c.
Proof.
  intros H. rewrite Z.min_l by lia.
  assert (l = 1 \/ l = 2 \/ l = 3 \/ l = 4 \/ l = 5) as [->|[->|[->|[->| ->]]]] by lia;
    unfold levelConfig; cbn; eexists; (split; [reflexivity|cbn; lia]).
Qed.

Lemma removal_loop_eq ids : forall w,
  forEach ids (fun i =>
    assign (fun e => set_items (removeById i (items e)) e) ;; notifyItemRemove i) w =
  Some (tt, {| eng := set_items (evict ids (items (eng w))) (eng w); host := host w |},
        if onItemRemove (eng w) then map ItemRemove ids else []).
Proof.
  induction ids as [|i ids IH]; intros [e o].
  - destruct e; cbn. destruct onItemRemove0; reflexivity.
  - cbn [forEach]. unfold bind at 1.
    rewrite (bind_eq _ _ _ tt {| eng := set_items (removeById i (items e)) e; host := o |} [])
      by reflexivity.
    rewrite notifyItemRemove_eq. cbn [fst snd].
    rewrite IH. destruct e; cbn. unfold notes. destruct onItemRemove0; reflexivity.
Qed.

Lemma resolve_eq item w :
  resolve item w =
  if checkCollision (eng w) item then handleItemCatch item w else handleItemMiss item w.
Proof.
  unfold resolve, bind, this. destruct (checkCollision (eng w) item).
  - destruct (handleItemCatch item w) as [[[[] w'] t]|]; reflexivity.
  - destruct (handleItemMiss item w) as [[[[] w'] t]|]; reflexivity.
Qed.

Lemma resolveItems_eq c now l : forall w,
  resolveItems (Some c) now l w =
  match resolveAll (filter (landed c now) l) w with
  | Some (_, w', t) => Some (map id (filter (landed c now) l), w', t)
  | None => None
  end.
Proof.
  induction l as [|item rest IH]; intros w; [reflexivity|].
  cbn [resolveItems filter]. unfold bind, ret, this.
  destruct (landed c now item); cbn.
  - unfold resolve, bind, this; cbn.
    destruct (checkCollision (eng w) item);
      match goal with
      | |- context [handleItemCatch item w] =>
          destruct (handleItemCatch item w) as [[[[] w1] t1]|]
      | |- context [handleItemMiss item w] =>
          destruct (handleItemMiss item w) as [[[[] w1] t1]|]
      end; cbn; try reflexivity; rewrite IH;
      destruct (resolveAll (filter (landed c now) rest) w1) as [[[[] w2] t2]|];
      cbn; rewrite ?app_nil_r; reflexivity.
  - rewrite IH.
    destruct (resolveAll (filter (landed c now) rest) w) as [[[[] w2] t2]|];
      cbn; rewrite ?app_nil_r; reflexivity.
Qed.

Lemma updateItems_eq now w c :
  levelConfig (Z.min (level (eng w)) 5) = Some c ->
  let ids := map id (filter (landed c now) (items (eng w))) in
  updateItems now w =
  match resolveAll (filter (landed c now) (items (eng w))) w with
  | Some (_, w1, t1) =>
      Some (tt, {| eng := set_items (evict ids (items (eng w1))) (eng w1); host := host w1 |},
            t1 ++ (if onItemRemove (eng w1) then map ItemRemove ids else []))
  | None => None
  end.
Proof.
  intros Hc ids. unfold updateItems.
  rewrite (bind_eq _ _ _ (eng w) w []) by reflexivity.
  cbv beta zeta. rewrite Hc. unfold bind at 1. rewrite resolveItems_eq.
  destruct (resolveAll (filter (landed c now) (items (eng w))) w) as [[[[] w1] t1]|];
    [|reflexivity].
  rewrite removal_loop_eq. reflexivity.
Qed.

(** *** What the resolution of a landed item leaves alone *)

Lemma created_ids_app t1 t2 : created_ids (t1 ++ t2) = created_ids t1 ++ created_ids t2.
Proof. apply flat_map_app. Qed.

Lemma removed_ids_app t1 t2 : removed_ids (t1 ++ t2) = removed_ids t1 ++ removed_ids t2.
Proof. apply flat_map_app. Qed.

Lemma removed_ids_map ids : removed_ids (map ItemRemove ids) = ids.
Proof.
  unfold removed_ids. induction ids as [|i ids IH]; cbn; [reflexivity|]. now rewrite IH.
Qed.

Lemma created_ids_map ids : created_ids (map ItemRemove ids) = [].
Proof.
  unfold created_ids. induction ids as [|i ids IH]; cbn; [reflexivity|]. exact IH.
Qed.

Lemma steady_refl w : steady w w [].
Proof. constructor; auto. Qed.

Lemma steady_trans w w1 w2 t1 t2 :
  steady w w1 t1 -> steady w1 w2 t2 -> steady w w2 (t1 ++ t2).
Proof.
  intros [a1 a2 a3 a4 a5 a6 a7 a8 a9 a10] [b1 b2 b3 b4 b5 b6 b7 b8 b9 b10].
  constructor;
    [ congruence | congruence | congruence | congruence | congruence
    | intros k; now rewrite b6 | congruence | auto
    | now rewrite created_ids_app, a9, b9
    | now rewrite removed_ids_app, a10, b10 ].
Qed.

Ltac notes_cases :=
  unfold notes;
  repeat match goal with
         | |- context [if ?b then _ else _] => destruct b
         end.

Ltac steady_solve :=
  constructor; cbn; try reflexivity; try discriminate; auto;
  try (rewrite ?created_ids_app, ?removed_ids_app; notes_cases; reflexivity).

Lemma endGame_steady reason w :
  exists w' t, endGame reason w = Some (tt, w', t) /\ steady w w' t /\
               isGameActive (eng w') = false /\
               missCount (eng w') = missCount (eng w).
Proof.
  rewrite endGame_eq. do 2 eexists. split; [reflexivity|].
  split; [|split; reflexivity]. steady_solve.
Qed.

Lemma resolve_spec item w :
  exists w' t, resolve item w = Some (tt, w', t) /\ steady w w' t /\
               (missInv (eng w) -> missInv (eng w')).
Proof.
  rewrite resolve_eq.
  destruct (isFruit (itemTypes (type item))) eqn:Hf; destruct (checkCollision (eng w) item).
  - rewrite handleItemCatch_fruit_eq by exact Hf. do 2 eexists. split; [reflexivity|]. split.
    + steady_solve.
    + unfold missInv; cbn. auto.
  - rewrite handleItemMiss_fruit_eq by exact Hf. cbn.
    destruct (maxMisses (eng w) <=? missCount (eng w) + 1) eqn:Hm;
      do 2 eexists; (split; [reflexivity|]); split.
    + steady_solve.
    + unfold missInv; cbn. intros (? & ? & ?). repeat split; auto; lia.
    + steady_solve.
    + unfold missInv; cbn. intros (? & ? & ?). apply Z.leb_gt in Hm.
      repeat split; auto; lia.
  - rewrite handleItemCatch_bomb_eq by exact Hf.
    destruct (endGame_steady reason_bomb w) as (w' & t & -> & Hs & Ha & Hc).
    do 2 eexists. split; [reflexivity|]. split; [exact Hs|].
    unfold missInv. rewrite Hc, (st_maxMisses _ _ _ Hs). intuition.
  - rewrite handleItemMiss_bomb_eq by exact Hf.
    do 2 eexists. split; [reflexivity|]. split; [apply steady_refl|auto].
Qed.

Lemma resolveAll_spec l : forall w,
  exists w' t, resolveAll l w = Some (tt, w', t) /\ steady w w' t /\
               (missInv (eng w) -> missInv (eng w')).
Proof.
  induction l as [|item rest IH]; intros w.
  - exists w, []. split; [reflexivity|]. split; [apply steady_refl|auto].
  - cbn [resolveAll].
    destruct (resolve_spec item w) as (w1 & t1 & E1 & S1 & M1).
    destruct (IH w1) as (w2 & t2 & E2 & S2 & M2).
    exists w2, (t1 ++ t2). rewrite (bind_eq _ _ _ _ _ _ E1), E2.
    split; [reflexivity|]. split; [eapply steady_trans; eauto|auto].
Qed.

(** *** The timer callbacks and [start] *)

Lemma startLevelUpTimer_eq w :
  let h := nextHandle (host w) in
  startLevelUpTimer w =
  Some (tt, {| eng := set_levelUpTimer (Some h) (eng w);
               host := {| nextHandle := Pos.succ h;
                          intervals := intervals (host w) ++ [(h, levelUpPeriod)];
                          timeouts := timeouts (host w); frames := frames (host w) |} |}, []).
Proof. reflexivity. Qed.

Lemma spawnItem_eq d w :
  spawnItem d w =
  if isGameActive (eng w) then
    match createItem d w with
    | Some (_, _, t) => Some (tt, spawned d w, t)
    | None => None
    end
  else Some (tt, w, []).
Proof.
  unfold spawnItem. rewrite (bind_eq _ _ _ (eng w) w []) by reflexivity.
  destruct (isGameActive (eng w)); cbn [negb]; [|reflexivity].
  unfold bind at 1. rewrite createItem_eq.
  destruct (onItemCreate (eng w)); [destruct (levelConfig _)|]; try reflexivity.
Qed.

Lemma gameLoop_eq now w :
  gameLoop now w =
  if isGameActive (eng w) then
    match updateItems now w with
    | Some (_, w1, t) => Some (tt, looped w1, t)
    | None => None
    end
  else Some (tt, w, []).
Proof.
  unfold gameLoop. rewrite (bind_eq _ _ _ (eng w) w []) by reflexivity.
  destruct (isGameActive (eng w)); cbn [negb]; [|reflexivity].
  unfold bind at 1.
  destruct (updateItems now w) as [[[[] w1] t]|]; [|reflexivity].
  cbn. rewrite app_nil_r. reflexivity.
Qed.

Lemma start_eq t0 d tLoop w :
  start t0 d tLoop w =
  match (startItemSpawning d ;; gameLoop tLoop) (restarted t0 w) with
  | Some (_, w', t) =>
      Some (tt, w', notes (onScoreChange (eng w)) (ScoreChange 0 1 0 (maxMisses (eng w)) 0) ++ t)
  | None => None
  end.
Proof.
  unfold start, restarted, startLevelUpTimer, setInterval, startItemSpawning.
  eng_unfold. cbn. rewrite notifyScoreChange_eq. cbn.
  match goal with
  | |- context [spawnItem d ?x] => destruct (spawnItem d x) as [[[[] w1] t1]|]
  end; [|unfold notes; destruct (onScoreChange (eng w)); reflexivity].
  destruct (gameLoop tLoop w1) as [[[[] w2] t2]|];
    unfold notes; destruct (onScoreChange (eng w)); reflexivity.
Qed.

Lemma updateItems_spec now w :
  levelOK (eng w) -> exists w' t, updateItems now w = Some (tt, w', t) /\ swept now w w' t.
Proof.
  intros Hl. destruct (levelConfig_defined _ Hl) as (c & Hc & _).
  rewrite (updateItems_eq now w c Hc).
  destruct (resolveAll_spec (filter (landed c now) (items (eng w))) w)
    as (w1 & t1 & E & Hs & Hm).
  rewrite E. do 2 eexists. split; [reflexivity|].
  exists c, w1, t1.
  split; [exact Hc|]. split; [exact E|]. split; [exact Hs|]. split; [exact Hm|]. cbv zeta.
  pose proof (st_slots _ _ _ Hs SlotItemRemove) as Hr. cbn in Hr.
  rewrite (st_items _ _ _ Hs), Hr. split; reflexivity.
Qed.

Lemma createItem_spec d w :
  levelOK (eng w) ->
  exists c, levelConfig (Z.min (level (eng w)) 5) = Some c /\
    createItem d w =
    Some (tt, {| eng := pushed d (eng w); host := host w |},
          notes (onItemCreate (eng w)) (ItemCreate (newItem d (eng w)) (fallDuration c))).
Proof.
  intros Hl. destruct (levelConfig_defined _ Hl) as (c & Hc & _).
  exists c. split; [exact Hc|]. rewrite createItem_eq, Hc.
  unfold notes. destruct (onItemCreate (eng w)); reflexivity.
Qed.

Lemma spawnItem_spec d w :
  levelOK (eng w) ->
  exists c, levelConfig (Z.min (level (eng w)) 5) = Some c /\
    spawnItem d w =
    if isGameActive (eng w)
    then Some (tt, spawned d w,
               notes (onItemCreate (eng w)) (ItemCreate (newItem d (eng w)) (fallDuration c)))
    else Some (tt, w, []).
Proof.
  intros Hl. destruct (createItem_spec d w Hl) as (c & Hc & E).
  exists c. split; [exact Hc|]. rewrite spawnItem_eq, E. reflexivity.
Qed.

Lemma gameLoop_spec now w :
  levelOK (eng w) ->
  if isGameActive (eng w)
  then exists w1 t, gameLoop now w = Some (tt, looped w1, t) /\ swept now w w1 t
  else gameLoop now w = Some (tt, w, []).
Proof.
  intros Hl. rewrite gameLoop_eq. destruct (isGameActive (eng w)); [|reflexivity].
  destruct (updateItems_spec now w Hl) as (w1 & t & -> & Hs). eauto.
Qed.

Lemma start_spec t0 d tLoop w :
  exists c w1 t,
    levelConfig 1 = Some c /\
    swept tLoop (spawned d (restarted t0 w)) w1 t /\
    start t0 d tLoop w =
    Some (tt, looped w1,
          notes (onScoreChange (eng w)) (ScoreChange 0 1 0 (maxMisses (eng w)) 0) ++
          notes (onItemCreate (eng w))
            (ItemCreate (newItem d (eng (restarted t0 w))) (fallDuration c)) ++ t).
Proof.
  rewrite start_eq. unfold startItemSpawning.
  assert (Hl : levelOK (eng (restarted t0 w))) by (unfold levelOK; cbn; lia).
  destruct (spawnItem_spec d _ Hl) as (c & Hc & E). cbn in Hc, E.
  rewrite (bind_eq _ _ _ _ _ _ E).
  assert (Hl' : levelOK (eng (spawned d (restarted t0 w)))) by (unfold levelOK; cbn; lia).
  pose proof (gameLoop_spec tLoop _ Hl') as G. cbn [spawned eng isGameActive] in G.
  cbn in G. destruct G as (w1 & t & G & Hs).
  exists c, w1, t. split; [exact Hc|]. split; [exact Hs|].
  cbn. rewrite G. reflexivity.
Qed.

Lemma finish_bind_unit (m : Eng unit) (k : Eng unit) w w1 :
  m w = Some (tt, w1, []) -> finish ((m ;; k) w) = finish (k w1).
Proof.
  intros E. rewrite (bind_eq _ _ _ _ _ _ E).
  destruct (k w1) as [[[[] w2] t2]|]; reflexivity.
Qed.

Lemma step_timeout_eq w h d :
  step w (EvTimeout h d) =
  if mem h (timeouts (host w)) then finish (spawnItem d (without_timeout h w)) else NotPending.
Proof.
  cbn [step]. destruct (mem h (timeouts (host w))); [|reflexivity].
  apply finish_bind_unit. reflexivity.
Qed.

Lemma step_frame_eq w h now :
  step w (EvFrame h now) =
  if mem h (frames (host w)) then finish (gameLoop now (without_frame h w)) else NotPending.
Proof.
  cbn [step]. destruct (mem h (frames (host w))); [|reflexivity].
  apply finish_bind_unit. reflexivity.
Qed.

(** ** The state invariant *)

Lemma swept_Inv now w w' t : swept now w w' t -> Inv (eng w) -> Inv (eng w').
Proof.
  intros (c & w1 & t1 & _ & _ & Hs & Hm & -> & _) [Hl Hi].
  specialize (Hm Hi). unfold Inv, levelOK, missInv in *. cbn.
  rewrite (st_level _ _ _ Hs). auto.
Qed.

Lemma step_Inv w ev :
  Inv (eng w) ->
  step w ev = NotPending \/ exists w' t, step w ev = Done w' t /\ Inv (eng w').
Proof.
  intros HI. pose proof HI as [Hl Hm].
  destruct ev as [k v|t0 d tLoop| |pose|h|h d|h now].
  - right. do 2 eexists. split; [reflexivity|]. exact HI.
  - right. destruct (start_spec t0 d tLoop w) as (c & w1 & t & _ & Hs & E).
    cbn [step]. rewrite E. do 2 eexists. split; [reflexivity|].
    apply swept_Inv in Hs.
    + exact Hs.
    + destruct Hm as (Hmax & _ & _).
      unfold Inv, levelOK, missInv; cbn. rewrite Hmax. repeat split; lia.
  - right. cbn [step]. rewrite stop_eq. do 2 eexists. split; [reflexivity|].
    unfold Inv, levelOK, missInv in *; cbn. intuition.
  - right. cbn [step]. rewrite onPoseDetected_eq.
    destruct (isGameActive (eng w)); [|do 2 eexists; split; [reflexivity|exact HI]].
    destruct (poseToZone pose) as [p|]; [|do 2 eexists; split; [reflexivity|exact HI]].
    destruct (Position_eqb p (basketPosition (eng w)));
      do 2 eexists; (split; [reflexivity|exact HI]).
  - cbn [step]. destruct (mem h (map fst (intervals (host w)))); [right|now left].
    rewrite levelUpTick_eq. destruct (level (eng w) <? 5) eqn:E.
    + do 2 eexists. split; [reflexivity|]. apply Z.ltb_lt in E.
      unfold Inv, levelOK, missInv in *; cbn. intuition lia.
    + do 2 eexists. split; [reflexivity|exact HI].
  - rewrite step_timeout_eq. destruct (mem h (timeouts (host w))); [right|now left].
    destruct (spawnItem_spec d (without_timeout h w) Hl) as (c & _ & ->). cbn.
    destruct (isGameActive (eng w)); do 2 eexists; (split; [reflexivity|exact HI]).
  - rewrite step_frame_eq. destruct (mem h (frames (host w))); [right|now left].
    pose proof (gameLoop_spec now (without_frame h w) Hl) as G. cbn in G.
    destruct (isGameActive (eng w)).
    + destruct G as (w1 & t & -> & Hs). do 2 eexists. split; [reflexivity|].
      apply swept_Inv in Hs; [exact Hs|exact HI].
    + rewrite G. do 2 eexists. split; [reflexivity|exact HI].
Qed.

Lemma reachable_Inv w : reachable w -> Inv (eng w).
Proof.
  induction 1 as [|w ev w' tr _ IH E].
  - unfold Inv, levelOK, missInv; cbn. repeat split; lia.
  - destruct (step_Inv w ev IH) as [N|(w1 & t1 & E1 & HI)]; congruence.
Qed.

(** ** The collection and the ids reported to the presentation layer *)

Lemma evict_keep ids : forall a l,
  ~ In (id a) ids -> evict ids (a :: l) = a :: evict ids l.
Proof.
  induction ids as [|i ids IH]; intros a l Hn; [reflexivity|].
  cbn [evict fold_left removeById].
  destruct (id a =? i) eqn:E.
  - apply Z.eqb_eq in E. exfalso. apply Hn. now left.
  - apply IH. intros Hin. apply Hn. now right.
Qed.

(** With distinct ids in the collection, evicting the ids of the landed
    items leaves exactly the other items, in order. *)
Lemma evict_landed (p : Item -> bool) l :
  NoDup (map id l) ->
  evict (map id (filter p l)) l = filter (fun x => negb (p x)) l.
Proof.
  induction l as [|a l IH]; intros Hnd; [reflexivity|].
  inversion Hnd as [|? ? Hni Hnd']; subst.
  cbn [filter]. destruct (p a); cbn [negb map].
  - cbn [evict fold_left removeById]. rewrite Z.eqb_refl. apply IH, Hnd'.
  - rewrite evict_keep.
    + f_equal. apply IH, Hnd'.
    + intros Hin. apply Hni. apply in_map_iff in Hin as (x & Hx & Hin).
      apply filter_In in Hin as [Hin _]. rewrite <- Hx. now apply in_map.
Qed.

Lemma landed_partition (p : Item -> bool) l :
  Permutation (map id (filter p l) ++ map id (filter (fun x => negb (p x)) l)) (map id l).
Proof.
  induction l as [|a l IH]; [constructor|].
  cbn [filter]. destruct (p a); cbn [negb map app].
  - now constructor.
  - rewrite <- Permutation_middle. now constructor.
Qed.

Lemma ids_below_succ n : 0 <= n -> ids_below (n + 1) = ids_below n ++ [n].
Proof.
  intros Hn. unfold ids_below.
  replace (Z.to_nat (n + 1)) with (S (Z.to_nat n)) by lia.
  rewrite seq_S, map_app. cbn. f_equal. f_equal. lia.
Qed.

Lemma ids_below_NoDup n : NoDup (ids_below n).
Proof.
  unfold ids_below. apply Finite.Injective_map_NoDup.
  - intros a b H. lia.
  - apply seq_NoDup.
Qed.

Lemma Ledger_NoDup e tr : Ledger e tr -> NoDup (map id (items e)).
Proof.
  intros L. pose proof (ids_below_NoDup (itemIdCounter e)) as Hn.
  rewrite <- (lg_created _ _ L) in Hn.
  apply (Permutation_NoDup (Permutation_sym (lg_balance _ _ L))) in Hn.
  now apply NoDup_app_remove_l in Hn.
Qed.

Lemma swept_Ledger now w w' t tr :
  swept now w w' t -> Ledger (eng w) tr -> Ledger (eng w') (tr ++ t).
Proof.
  intros (c & w1 & t1 & _ & _ & Hs & _ & -> & ->) L.
  pose proof (Ledger_NoDup _ _ L) as Hnd.
  pose proof (st_slots _ _ _ Hs SlotItemCreate) as Hc.
  pose proof (st_slots _ _ _ Hs SlotItemRemove) as Hr. cbn in Hc, Hr.
  destruct L as [Lc Lr Ll Ln Lcr Lb].
  rewrite Lr, evict_landed by exact Hnd.
  constructor; cbn.
  - congruence.
  - congruence.
  - unfold levelOK in *; cbn. now rewrite (st_level _ _ _ Hs).
  - now rewrite (st_counter _ _ _ Hs).
  - rewrite !created_ids_app, (st_created _ _ _ Hs), created_ids_map, (st_counter _ _ _ Hs).
    cbn. now rewrite app_nil_r.
  - rewrite !created_ids_app, (st_created _ _ _ Hs), created_ids_map, !app_nil_r.
    rewrite !removed_ids_app, (st_removed _ _ _ Hs), removed_ids_map. cbn [app].
    rewrite <- app_assoc. rewrite <- Lb.
    apply Permutation_app_head. apply landed_partition.
Qed.

Lemma spawned_Ledger d w c tr :
  Ledger (eng w) tr ->
  Ledger (eng (spawned d w))
    (tr ++ notes (onItemCreate (eng w)) (ItemCreate (newItem d (eng w)) (fallDuration c))).
Proof.
  intros [Lc Lr Ll Ln Lcr Lb]. rewrite Lc. constructor; cbn; auto.
  - lia.
  - rewrite created_ids_app, Lcr, ids_below_succ by exact Ln. reflexivity.
  - rewrite created_ids_app, removed_ids_app, map_app. cbn. rewrite app_nil_r, app_assoc.
    now apply Permutation_app_tail.
Qed.

Lemma removed_ids_stop l :
  removed_ids (map (fun item => ItemRemove (id item)) l) = map id l.
Proof.
  unfold removed_ids. induction l as [|a l IH]; cbn; [reflexivity|]. now rewrite IH.
Qed.

Lemma created_ids_stop l :
  created_ids (map (fun item => ItemRemove (id item)) l) = [].
Proof.
  unfold created_ids. induction l as [|a l IH]; cbn; [reflexivity|]. exact IH.
Qed.

(** A step that touches neither the collection nor the item callbacks keeps
    the books balanced. *)
Lemma Ledger_frame e e' tr t :
  Ledger e tr ->
  onItemCreate e' = onItemCreate e -> onItemRemove e' = onItemRemove e ->
  levelOK e' -> itemIdCounter e' = itemIdCounter e -> items e' = items e ->
  created_ids t = [] -> removed_ids t = [] ->
  Ledger e' (tr ++ t).
Proof.
  intros [Lc Lr Ll Ln Lcr Lb] Hc Hr Hl Hn Hi Ht Ht'.
  constructor; try congruence.
  - now rewrite created_ids_app, Ht, app_nil_r, Hn.
  - now rewrite created_ids_app, removed_ids_app, Ht, Ht', !app_nil_r, Hi.
Qed.

Lemma step_Ledger w ev w' t tr :
  in_session ev = true -> Ledger (eng w) tr -> step w ev = Done w' t ->
  Ledger (eng w') (tr ++ t).
Proof.
  intros Hev L. pose proof (lg_level _ _ L) as Hl.
  destruct ev as [k v|t0 d tLoop| |pose|h|h d|h now]; try discriminate; clear Hev.
  - cbn [step]. rewrite stop_eq. cbn. intros E; injection E as <- <-.
    destruct L as [Lc Lr _ Ln Lcr Lb]. rewrite Lr.
    constructor; cbn; auto.
    + now rewrite created_ids_app, created_ids_stop, app_nil_r.
    + now rewrite created_ids_app, removed_ids_app, created_ids_stop, removed_ids_stop,
        !app_nil_r.
  - cbn [step]. rewrite onPoseDetected_eq.
    destruct (isGameActive (eng w));
      [destruct (poseToZone pose) as [p|];
       [destruct (Position_eqb p (basketPosition (eng w)))|]|];
      cbn; intros E; injection E as <- <-;
      apply (Ledger_frame (eng w)); auto; notes_cases; reflexivity.
  - cbn [step]. destruct (mem h (map fst (intervals (host w)))); [|discriminate].
    rewrite levelUpTick_eq. destruct (level (eng w) <? 5) eqn:E; cbn;
      intros E'; injection E' as <- <-; apply (Ledger_frame (eng w)); auto;
      try (notes_cases; reflexivity).
    apply Z.ltb_lt in E. unfold levelOK in *; cbn. lia.
  - rewrite step_timeout_eq. destruct (mem h (timeouts (host w))); [|discriminate].
    destruct (spawnItem_spec d (without_timeout h w) Hl) as (c & _ & ->). cbn.
    destruct (isGameActive (eng w)); cbn; intros E; injection E as <- <-.
    + apply (spawned_Ledger d (without_timeout h w) c tr L).
    + rewrite app_nil_r. exact L.
  - rewrite step_frame_eq. destruct (mem h (frames (host w))); [|discriminate].
    pose proof (gameLoop_spec now (without_frame h w) Hl) as G. cbn in G.
    destruct (isGameActive (eng w)).
    + destruct G as (w1 & t1 & -> & Hs). cbn. intros E; injection E as <- <-.
      apply (swept_Ledger _ _ _ _ tr) in Hs; [|exact L].
      destruct Hs. constructor; auto.
    + rewrite G. cbn. intros E; injection E as <- <-. rewrite app_nil_r. exact L.
Qed.

Lemma start_Ledger w t0 d tLoop w' t :
  onItemCreate (eng w) = true -> onItemRemove (eng w) = true ->
  step w (EvStart t0 d tLoop) = Done w' t -> Ledger (eng w') t.
Proof.
  intros Hc Hr. cbn [step].
  destruct (start_spec t0 d tLoop w) as (c & w1 & t1 & _ & Hs & ->). cbn.
  intros E; injection E as <- <-.
  assert (L0 : Ledger (eng (restarted t0 w)) []).
  { constructor; cbn; auto; try lia. unfold levelOK; cbn; lia. }
  pose proof (spawned_Ledger d _ c [] L0) as L1. cbn [app] in L1.
  apply (swept_Ledger _ _ _ _ _ Hs) in L1. cbn [restarted eng onItemCreate] in L1.
  cbn in L1. rewrite Hc in *.
  assert (Hq : forall n x, created_ids (notes (onScoreChange (eng w)) (ScoreChange 0 1 0 n 0) ++ x)
                           = created_ids x /\
                           removed_ids (notes (onScoreChange (eng w)) (ScoreChange 0 1 0 n 0) ++ x)
                           = removed_ids x).
  { intros n x. unfold notes. destruct (onScoreChange (eng w)); split; reflexivity. }
  destruct L1 as [Lc Lr Ll Ln Lcr Lb].
  constructor; auto.
  - cbn. rewrite (proj1 (Hq _ _)). exact Lcr.
  - cbn. rewrite (proj1 (Hq _ _)), (proj2 (Hq _ _)). exact Lb.
Qed.

Lemma run_Ledger evs : forall w tr w' t,
  forallb in_session evs = true -> Ledger (eng w) tr -> run w evs = Done w' t ->
  Ledger (eng w') (tr ++ t).
Proof.
  induction evs as [|ev evs IH]; intros w tr w' t Hs L; cbn [run].
  - intros E; injection E as <- <-. now rewrite app_nil_r.
  - cbn in Hs. apply andb_prop in Hs as [Hev Hs].
    destruct (step w ev) as [w1 t1| |] eqn:E1; try discriminate.
    destruct (run w1 evs) as [w2 t2| |] eqn:E2; try discriminate.
    intros E; injection E as <- <-.
    rewrite app_assoc. eapply IH; eauto. eapply step_Ledger; eauto.
Qed.

(** ** The callback wiring does not influence the state *)











(** ** Runs *)

Lemma run_reachable evs : forall w w' t,
  reachable w -> run w evs = Done w' t -> reachable w'.
Proof.
  induction evs as [|ev evs IH]; intros w w' t Hr; cbn [run].
  - intros E; injection E as <- _. exact Hr.
  - destruct (step w ev) as [w1 t1| |] eqn:E1; try discriminate.
    destruct (run w1 evs) as [w2 t2| |] eqn:E2; try discriminate.
    intros E; injection E as <- _.
    eapply IH; [|exact E2]. eapply reach_step; eauto.
Qed.

Lemma run_never_throws evs : forall w, Inv (eng w) -> run w evs <> Threw.
Proof.
  induction evs as [|ev evs IH]; intros w HI; cbn [run]; [discriminate|].
  destruct (step_Inv w ev HI) as [->|(w1 & t1 & -> & HI1)]; [discriminate|].
  specialize (IH w1 HI1). destruct (run w1 evs); congruence.
Qed.


(** An engine that is not active stays as it is until [start()] or
    [stop()]: the pending callbacks return at once. *)
Lemma idle_step w ev w' t :
  isGameActive (eng w) = false -> idle_event ev = true -> step w ev = Done w' t ->
  isGameActive (eng w') = false /\ items (eng w') = items (eng w) /\ removed_ids t = [].
Proof.
  intros Ha Hev.
  destruct ev as [k v|t0 d tLoop| |pose|h|h d|h now]; try discriminate; clear Hev.
  - cbn. intros E; injection E as <- <-. cbn. auto.
  - cbn [step]. rewrite onPoseDetected_eq, Ha. cbn. intros E; injection E as <- <-. auto.
  - cbn [step]. destruct (mem h (map fst (intervals (host w)))); [|discriminate].
    rewrite levelUpTick_eq. destruct (level (eng w) <? 5); cbn;
      intros E; injection E as <- <-; cbn; repeat split; auto.
    notes_cases; reflexivity.
  - rewrite step_timeout_eq. destruct (mem h (timeouts (host w))); [|discriminate].
    rewrite spawnItem_eq. cbn. rewrite Ha. cbn. intros E; injection E as <- <-. auto.
  - rewrite step_frame_eq. destruct (mem h (frames (host w))); [|discriminate].
    rewrite gameLoop_eq. cbn. rewrite Ha. cbn. intros E; injection E as <- <-. auto.
Qed.

Lemma idle_run evs : forall w w' t,
  isGameActive (eng w) = false -> forallb idle_event evs = true -> run w evs = Done w' t ->
  isGameActive (eng w') = false /\ items (eng w') = items (eng w) /\ removed_ids t = [].
Proof.
  induction evs as [|ev evs IH]; intros w w' t Ha Hev; cbn [run].
  - intros E; injection E as <- <-. auto.
  - cbn in Hev. apply andb_prop in Hev as [Hev Hevs].
    destruct (step w ev) as [w1 t1| |] eqn:E1; try discriminate.
    destruct (run w1 evs) as [w2 t2| |] eqn:E2; try discriminate.
    intros E; injection E as <- <-.
    destruct (idle_step _ _ _ _ Ha Hev E1) as (Ha1 & Hi1 & Hr1).
    destruct (IH _ _ _ Ha1 Hevs E2) as (Ha2 & Hi2 & Hr2).
    repeat split; [assumption|congruence|].
    now rewrite removed_ids_app, Hr1, Hr2.
Qed.

Lemma wired_world_reachable : reachable wired_world.
Proof.
  apply (run_reachable setupGameCallbacks new_world wired_world []); [constructor|].
  reflexivity.
Qed.

Lemma started_world_reachable : reachable started_world.
Proof.
  assert (E : exists t, step wired_world (EvStart 0 (draw apple LEFT 0) 0)
                        = Done started_world t)
    by (eexists; vm_compute; reflexivity).
  destruct E as [t E]. exact (reach_step _ _ _ _ wired_world_reachable E).
Qed.

(** ** The miss counter (C1) *)

(** What does hold in every reachable state: the level is between 1 and 5,
    the miss counter is not negative, and an engine whose miss counter has
    reached the limit is not active. *)
Lemma reachable_missCount w :
  reachable w ->
  1 <= level (eng w) <= 5 /\ maxMisses (eng w) = 3 /\ 0 <= missCount (eng w) /\
  (maxMisses (eng w) <= missCount (eng w) -> isGameActive (eng w) = false).
Proof.
  intros H. destruct (reachable_Inv w H) as (Hl & Hm & H0 & Ha). auto.
Qed.

(** C1 (the code departs from the claim).  The claim bounds [missCount] by
    [maxMisses] in every reachable state.  [updateItems] keeps resolving the
    landed items of a tick after [endGame]: when four missed fruits land in
    one tick, the reachable final state has [missCount = 4] with
    [maxMisses = 3], and [onGameEnd] has been called twice. *)
Theorem missCount_exceeds_maxMisses :
  exists w tr,
    run wired_world late_frame = Done w tr /\
    reachable w /\
    missCount (eng w) = 4 /\ maxMisses (eng w) = 3 /\
    isGameActive (eng w) = false /\
    filter (fun n => match n with GameEnd _ _ _ _ => true | _ => false end) tr =
      [GameEnd reason_misses 0 1 0; GameEnd reason_misses 0 1 0].
Proof.
  destruct (run wired_world late_frame) as [w tr| |] eqn:E; try (vm_compute in E; discriminate).
  exists w, tr. split; [reflexivity|].
  split; [exact (run_reachable _ _ _ _ wired_world_reachable E)|].
  vm_compute in E. injection E as <- <-. repeat split; reflexivity.
Qed.

(** ** The combo counter (C2) *)

(** C2, counterexample.  The claim wants combo 0 after every game end.  One
    apple is caught, then a bomb: the game has ended (through [endGame]) and
    the combo is still 1. *)
Lemma combo_survives_endGame :
  exists w tr,
    run wired_world apple_then_bomb = Done w tr /\
    In (GameEnd reason_bomb 100 1 1) tr /\
    isGameActive (eng w) = false /\
    combo (eng w) = 1 /\ gsCombo (getGameState (eng w)) <> 0.
Proof.
  eexists. eexists. split; [vm_compute; reflexivity|].
  split; [cbn; tauto|]. cbn. repeat split; lia.
Qed.

(** C2, as amended.  Resolving a missed fruit leaves the combo at exactly 0,
    whether or not this miss ends the game; [endGame] itself, whatever the
    reason, leaves the combo as it was, and so does the catch of a bomb,
    which ends the game. *)
Theorem combo_after_miss_and_endGame (item : Item) (w : World) :
  isFruit (itemTypes (type item)) = true ->
  (exists w' t, handleItemMiss item w = Some (tt, w', t) /\ combo (eng w') = 0 /\
     (maxMisses (eng w) <= missCount (eng w) + 1 ->
      isGameActive (eng w') = false /\
      (onGameEnd (eng w) = true -> exists sc lv fc, In (GameEnd reason_misses sc lv fc) t))) /\
  (forall reason, exists w' t,
      endGame reason w = Some (tt, w', t) /\ combo (eng w') = combo (eng w) /\
      isGameActive (eng w') = false) /\
  (forall b, isFruit (itemTypes (type b)) = false ->
     exists w' t,
       handleItemCatch b w = Some (tt, w', t) /\ combo (eng w') = combo (eng w) /\
       isGameActive (eng w') = false).
Proof.
  intros Hf. split; [|split].
  - rewrite handleItemMiss_fruit_eq by exact Hf. cbn.
    destruct (maxMisses (eng w) <=? missCount (eng w) + 1) eqn:Hm;
      do 2 eexists; (split; [reflexivity|]); (split; [reflexivity|]); intros Hle.
    + split; [reflexivity|]. intros Hg. rewrite Hg. do 3 eexists.
      apply in_or_app. right. left. reflexivity.
    + apply Z.leb_gt in Hm. lia.
  - intros reason. rewrite endGame_eq. do 2 eexists. repeat split.
  - intros b Hb. rewrite handleItemCatch_bomb_eq, endGame_eq by exact Hb.
    do 2 eexists. repeat split.
Qed.

Lemma combo_after_miss_and_endGame_witness :
  combo (eng apple_caught_world) = 1 /\
  (exists w' t, handleItemMiss (newItem (draw apple LEFT 0) constructor) apple_caught_world
                = Some (tt, w', t) /\ combo (eng w') = 0) /\
  (forall reason, exists w' t,
      endGame reason apple_caught_world = Some (tt, w', t) /\ combo (eng w') = 1) /\
  (exists w' t, handleItemCatch (newItem (draw bomb CENTER 1500) constructor)
                  apple_caught_world = Some (tt, w', t) /\ combo (eng w') = 1).
Proof.
  assert (Hc : combo (eng apple_caught_world) = 1) by (vm_compute; reflexivity).
  destruct (combo_after_miss_and_endGame (newItem (draw apple LEFT 0) constructor)
              apple_caught_world eq_refl) as ((w1 & t1 & E1 & C1 & _) & H2 & H3).
  split; [exact Hc|]. split; [exists w1, t1; split; [exact E1|exact C1]|]. split.
  - intros reason. destruct (H2 reason) as (w2 & t2 & E2 & C2 & _).
    exists w2, t2. split; [exact E2|]. rewrite C2. exact Hc.
  - destruct (H3 (newItem (draw bomb CENTER 1500) constructor) eq_refl)
      as (w3 & t3 & E3 & C3 & _).
    exists w3, t3. split; [exact E3|]. rewrite C3. exact Hc.
Defined.

(** ** Created and removed items (C3) *)

(** C3, counterexample.  A bomb is caught while an apple (id 1) is in the
    air: the session has ended through [endGame], id 1 was reported created
    and is never reported removed; the item is still in the collection. *)
Lemma item_left_without_removal :
  exists w tr,
    run wired_world bomb_with_apple_airborne = Done w tr /\
    In (GameEnd reason_bomb 0 1 0) tr /\
    isGameActive (eng w) = false /\
    timeouts (host w) = [] /\ intervals (host w) = [] /\
    created_ids tr = [0; 1] /\ removed_ids tr = [0] /\
    map id (items (eng w)) = [1].
Proof.
  eexists. eexists. split; [vm_compute; reflexivity|].
  split; [cbn; tauto|]. cbn. repeat split; reflexivity.
Qed.

(** C3, as amended.  In a session (from a [start()] on, with the item
    callbacks registered, until the next [start()]), at every moment: no id
    was reported created or removed twice, and the created ids are exactly
    the removed ids together with the ids of the items still in the
    collection.  [stop()] reports the remaining ones and empties the
    collection, so that after it every created id has been removed exactly
    once. *)
Theorem session_ids_balanced (w : World) (t0 : Z) (d : Draw) (tLoop : Z)
    (evs : list Event) (w' : World) (tr : Trace) :
  onItemCreate (eng w) = true -> onItemRemove (eng w) = true ->
  forallb in_session evs = true ->
  run w (EvStart t0 d tLoop :: evs) = Done w' tr ->
  NoDup (created_ids tr) /\ NoDup (removed_ids tr) /\
  Permutation (removed_ids tr ++ map id (items (eng w'))) (created_ids tr) /\
  exists w'' tr',
    step w' EvStop = Done w'' tr' /\ items (eng w'') = [] /\
    Permutation (removed_ids (tr ++ tr')) (created_ids (tr ++ tr')).
Proof.
  intros Hc Hr Hs. cbn [run].
  destruct (step w (EvStart t0 d tLoop)) as [w1 t1| |] eqn:E1; try discriminate.
  destruct (run w1 evs) as [w2 t2| |] eqn:E2; try discriminate.
  intros E; injection E as <- <-.
  pose proof (start_Ledger _ _ _ _ _ _ Hc Hr E1) as L1.
  pose proof (run_Ledger _ _ _ _ _ Hs L1 E2) as L2.
  assert (Hnd : NoDup (created_ids (t1 ++ t2))).
  { rewrite (lg_created _ _ L2). apply ids_below_NoDup. }
  split; [exact Hnd|]. split.
  - apply (Permutation_NoDup (Permutation_sym (lg_balance _ _ L2))) in Hnd.
    now apply NoDup_app_remove_r in Hnd.
  - split; [exact (lg_balance _ _ L2)|].
    destruct (step w2 EvStop) as [w3 t3| |] eqn:E3;
      try (cbn in E3; rewrite stop_eq in E3; discriminate).
    exists w3, t3. split; [reflexivity|].
    pose proof (step_Ledger _ EvStop _ _ _ eq_refl L2 E3) as L3.
    cbn in E3. rewrite stop_eq in E3. cbn in E3. injection E3 as <- _.
    split; [reflexivity|].
    pose proof (lg_balance _ _ L3) as B. cbn in B. now rewrite app_nil_r in B.
Qed.

Lemma session_ids_balanced_witness :
  exists w' tr,
    run wired_world (EvStart 0 (draw apple LEFT 0) 0 :: stopped_session) = Done w' tr /\
    NoDup (created_ids tr) /\ NoDup (removed_ids tr) /\
    Permutation (removed_ids tr ++ map id (items (eng w'))) (created_ids tr).
Proof.
  destruct (run wired_world (EvStart 0 (draw apple LEFT 0) 0 :: stopped_session))
    as [w' tr| |] eqn:E; try (vm_compute in E; discriminate).
  exists w', tr. split; [reflexivity|].
  destruct (session_ids_balanced wired_world 0 (draw apple LEFT 0) 0 stopped_session
              w' tr eq_refl eq_refl eq_refl E) as (H1 & H2 & H3 & _).
  exact (conj H1 (conj H2 H3)).
Defined.

(** ** Catching a bomb (C4) *)

(** C4, counterexample.  The reason handed to [onGameEnd] when a bomb is
    caught is the string of the source, which is not ["bomb caught"]. *)
Lemma bomb_reason_is_not_bomb_caught :
  exists w' tr,
    handleItemCatch (newItem (draw bomb CENTER 0) constructor) started_world =
      Some (tt, w', tr) /\
    tr = [GameEnd reason_bomb 0 1 0] /\
    (forall sc lv fc, ~ In (GameEnd "bomb caught" sc lv fc) tr).
Proof.
  eexists. eexists. split; [vm_compute; reflexivity|]. split; [reflexivity|].
  intros sc lv fc [H|[]]. discriminate H.
Qed.

(** C4, as amended.  Catching a hazard (the bomb, the only catalog entry
    that is not a fruit) ends the game at once, whatever the state: the
    engine is no longer active, the three timers are cancelled, the only
    notification is the game-ended one, with the reason string
    [reason_bomb] of the source and the current score, level and
    fruitsCaught, and score, combo, missCount and fruitsCaught (indeed
    every field but the active flag and the timer handles) are unchanged. *)
Theorem bomb_catch_ends_game (item : Item) (w : World) :
  isFruit (itemTypes (type item)) = false ->
  type item = bomb /\
  handleItemCatch item w =
    Some (tt, {| eng := halted (eng w); host := released (eng w) (host w) |},
          notes (onGameEnd (eng w))
            (GameEnd reason_bomb (score (eng w)) (level (eng w)) (fruitsCaught (eng w)))) /\
  isGameActive (halted (eng w)) = false /\
  score (halted (eng w)) = score (eng w) /\
  combo (halted (eng w)) = combo (eng w) /\
  missCount (halted (eng w)) = missCount (eng w) /\
  fruitsCaught (halted (eng w)) = fruitsCaught (eng w) /\
  (onGameEnd (eng w) = true ->
   notes (onGameEnd (eng w))
     (GameEnd reason_bomb (score (eng w)) (level (eng w)) (fruitsCaught (eng w))) =
   [GameEnd reason_bomb (score (eng w)) (level (eng w)) (fruitsCaught (eng w))]).
Proof.
  intros Hf. split; [destruct (type item); try discriminate; reflexivity|].
  split; [rewrite handleItemCatch_bomb_eq by exact Hf; apply endGame_eq|].
  repeat split. now intros ->.
Qed.

Lemma bomb_catch_ends_game_witness :
  let w := started_world in
  let n := GameEnd reason_bomb (score (eng w)) (level (eng w)) (fruitsCaught (eng w)) in
  handleItemCatch (newItem (draw bomb CENTER 0) constructor) w =
    Some (tt, {| eng := halted (eng w); host := released (eng w) (host w) |},
          notes (onGameEnd (eng w)) n) /\
  notes (onGameEnd (eng w)) n = [n].
Proof.
  split.
  - apply (bomb_catch_ends_game (newItem (draw bomb CENTER 0) constructor) started_world).
    reflexivity.
  - apply (bomb_catch_ends_game (newItem (draw bomb CENTER 0) constructor) started_world);
      reflexivity.
Defined.

(** ** Catching a fruit (C5) *)

Lemma comboBonus_cases c :
  (comboBonus c = 50 <-> c = 5) /\ (comboBonus c = 100 <-> c = 10) /\
  (c <> 5 -> c <> 10 -> comboBonus c = 0).
Proof.
  unfold comboBonus.
  destruct (c =? 5) eqn:E5; [apply Z.eqb_eq in E5|apply Z.eqb_neq in E5];
    (destruct (c =? 10) eqn:E10; [apply Z.eqb_eq in E10|apply Z.eqb_neq in E10]);
    repeat split; intros; try lia.
Qed.

Lemma streakBonus_step c n :
  0 <= n -> comboBonus (c + 1) + streakBonus (c + 1) n = streakBonus c (n + 1).
Proof.
  intros Hn. unfold comboBonus, streakBonus.
  destruct (Z.eqb_spec (c + 1) 5), (Z.eqb_spec (c + 1) 10),
    (Z.ltb_spec (c + 1) 5), (Z.leb_spec 5 (c + 1 + n)),
    (Z.ltb_spec (c + 1) 10), (Z.leb_spec 10 (c + 1 + n)),
    (Z.ltb_spec c 5), (Z.leb_spec 5 (c + (n + 1))),
    (Z.ltb_spec c 10), (Z.leb_spec 10 (c + (n + 1)));
    cbn [andb]; lia.
Qed.

Lemma streakBonus_0 c : streakBonus c 0 = 0.
Proof.
  unfold streakBonus. rewrite Z.add_0_r.
  destruct (Z.ltb_spec c 5), (Z.leb_spec 5 c), (Z.ltb_spec c 10), (Z.leb_spec 10 c);
    cbn [andb]; lia.
Qed.

Lemma catch_streak l : forall w,
  allFruit l = true ->
  exists w' t,
    forEach l handleItemCatch w = Some (tt, w', t) /\
    combo (eng w') = combo (eng w) + Z.of_nat (List.length l) /\
    fruitsCaught (eng w') = fruitsCaught (eng w) + Z.of_nat (List.length l) /\
    score (eng w') =
      score (eng w) + scoreSum l + streakBonus (combo (eng w)) (Z.of_nat (List.length l)).
Proof.
  induction l as [|item rest IH]; intros w Hf.
  - exists w, []. split; [reflexivity|]. cbn [List.length scoreSum fold_right Z.of_nat].
    rewrite streakBonus_0. repeat split; lia.
  - cbn in Hf. apply andb_prop in Hf as [Hi Hr].
    cbn [forEach]. rewrite (bind_eq _ _ _ _ _ _ (handleItemCatch_fruit_eq item w Hi)).
    destruct (IH {| eng := set_fruitsCaught (fruitsCaught (eng w) + 1)
                           (set_combo (combo (eng w) + 1)
                             (set_score (score (eng w) + itemScore (itemTypes (type item))
                                         + comboBonus (combo (eng w) + 1)) (eng w)));
                    host := host w |} Hr) as (w' & t & -> & Hc & Hn & Hs).
    cbn in Hc, Hn, Hs. do 2 eexists. split; [reflexivity|].
    rewrite Hc, Hn, Hs. cbn [List.length scoreSum fold_right].
    fold (scoreSum rest). rewrite Nat2Z.inj_succ. unfold Z.succ.
    rewrite <- (streakBonus_step (combo (eng w)) (Z.of_nat (List.length rest))) by lia.
    repeat split; lia.
Qed.

Lemma apples_allFruit l :
  Forall (fun item => type item = apple) l ->
  allFruit l = true /\ scoreSum l = 100 * Z.of_nat (List.length l).
Proof.
  induction 1 as [|item rest Hi _ [IH1 IH2]]; [split; reflexivity|].
  unfold allFruit in *. cbn [forallb scoreSum fold_right List.length].
  fold (scoreSum rest). rewrite Hi, IH1, IH2. cbn [itemTypes isFruit itemScore andb].
  split; [reflexivity|lia].
Qed.

(** C5.  Catching a fruit adds its catalog value to the score and 1 to combo
    and fruitsCaught, adds the bonus [comboBonus] of the new combo (50
    exactly at 5, 100 exactly at 10, nothing otherwise), changes nothing
    else, and then reports the new score, level, missCount, maxMisses and
    combo through the (guarded) score-change callback.  Over an unbroken
    streak of catches each threshold pays once, when the streak passes it;
    five apples (100 points each) caught in a row from combo 0 add 550. *)
Theorem fruit_catch_scoring (item : Item) (w : World) :
  isFruit (itemTypes (type item)) = true ->
  let e := eng w in
  let e' := set_fruitsCaught (fruitsCaught e + 1) (set_combo (combo e + 1)
              (set_score (score e + itemScore (itemTypes (type item))
                          + comboBonus (combo e + 1)) e)) in
  let n := ScoreChange (score e') (level e) (missCount e) (maxMisses e) (combo e') in
  handleItemCatch item w = Some (tt, {| eng := e'; host := host w |}, notes (onScoreChange e) n) /\
  (onScoreChange e = true -> notes (onScoreChange e) n = [n]) /\
  score e' = score e + itemScore (itemTypes (type item)) + comboBonus (combo e') /\
  combo e' = combo e + 1 /\
  fruitsCaught e' = fruitsCaught e + 1 /\
  (comboBonus (combo e') = 50 <-> combo e' = 5) /\
  (comboBonus (combo e') = 100 <-> combo e' = 10) /\
  (combo e' <> 5 -> combo e' <> 10 -> comboBonus (combo e') = 0) /\
  (forall l, allFruit l = true ->
     exists w' t,
       forEach l handleItemCatch w = Some (tt, w', t) /\
       combo (eng w') = combo e + Z.of_nat (List.length l) /\
       score (eng w') =
         score e + scoreSum l + streakBonus (combo e) (Z.of_nat (List.length l))) /\
  (forall l, List.length l = 5%nat -> Forall (fun item => type item = apple) l ->
     combo e = 0 ->
     exists w' t,
       forEach l handleItemCatch w = Some (tt, w', t) /\
       combo (eng w') = 5 /\ score (eng w') = score e + 550).
Proof.
  intros Hf e e' n.
  split; [exact (handleItemCatch_fruit_eq item w Hf)|].
  split; [now intros ->|].
  split; [reflexivity|]. split; [reflexivity|]. split; [reflexivity|].
  destruct (comboBonus_cases (combo e')) as (B5 & B10 & B0).
  split; [exact B5|]. split; [exact B10|]. split; [exact B0|]. split.
  - intros l Hl. destruct (catch_streak l w Hl) as (w' & t & E & Hc & _ & Hs). eauto.
  - intros l Hlen Happ Hc0. destruct (apples_allFruit l Happ) as [Hl Hsum].
    destruct (catch_streak l w Hl) as (w' & t & E & Hc & _ & Hs).
    exists w', t. split; [exact E|]. fold e in Hc, Hs.
    rewrite Hc, Hs, Hsum, Hlen, Hc0.
    change (streakBonus 0 (Z.of_nat 5)) with 50. split; lia.
Qed.

Lemma fruit_catch_scoring_witness :
  let apple0 := newItem (draw apple CENTER 0) constructor in
  (exists w' t,
     forEach (repeat apple0 5) handleItemCatch started_world = Some (tt, w', t) /\
     combo (eng w') = 5 /\ score (eng w') = score (eng started_world) + 550) /\
  (exists w' t,
     forEach (repeat apple0 12) handleItemCatch started_world = Some (tt, w', t) /\
     combo (eng w') = combo (eng started_world) + 12 /\
     score (eng w') =
       score (eng started_world) + scoreSum (repeat apple0 12)
       + streakBonus (combo (eng started_world)) 12).
Proof.
  intros apple0. split.
  - apply (fruit_catch_scoring apple0 started_world eq_refl).
    + reflexivity.
    + repeat constructor.
    + reflexivity.
  - destruct (fruit_catch_scoring apple0 started_world eq_refl)
      as (_ & _ & _ & _ & _ & _ & _ & _ & Hstreak & _).
    exact (Hstreak (repeat apple0 12) eq_refl).
Defined.

(** ** Pose input (C6) *)

(** What [onPoseDetected] does for the labels that behave as the claim
    says: nothing while the engine is not active, nothing for a label that
    names no property of [poseToZone], nothing for the label of the zone the
    basket is in, and otherwise one assignment to [basketPosition] reported
    through the (guarded) basket-move callback. *)
Lemma onPoseDetected_cases pose w :
  (isGameActive (eng w) = false -> onPoseDetected pose w = Some (tt, w, [])) /\
  (poseToZone pose = None -> onPoseDetected pose w = Some (tt, w, [])) /\
  (forall z, poseToZone_own pose = Some z ->
     basketPosition (eng w) = InZone z -> onPoseDetected pose w = Some (tt, w, [])) /\
  (forall z, poseToZone_own pose = Some z -> isGameActive (eng w) = true ->
     basketPosition (eng w) <> InZone z ->
     onPoseDetected pose w =
     Some (tt, {| eng := set_basketPosition (InZone z) (eng w); host := host w |},
           notes (onBasketMove (eng w)) (BasketMove (InZone z)))).
Proof.
  rewrite onPoseDetected_eq. repeat split.
  - now intros ->.
  - intros ->. now destruct (isGameActive (eng w)).
  - intros z Hz Hb. unfold poseToZone. rewrite Hz, Hb. cbn.
    destruct z; cbn; now destruct (isGameActive (eng w)).
  - intros z Hz Ha Hb. unfold poseToZone. rewrite Hz, Ha.
    destruct (Position_eqb (InZone z) (basketPosition (eng w))) eqn:E; [|reflexivity].
    exfalso. apply Hb. destruct (basketPosition (eng w)) as [z'|k]; [|discriminate].
    destruct z, z'; try discriminate; reflexivity.
Qed.

(** C6 (the code departs from the claim).  ["constructor"] is not one of
    the three zone labels, yet [poseToZone["constructor"]] is the inherited
    function [Object]: in an active engine the basket position is
    overwritten with it and the basket-move callback is called. *)
Theorem inherited_key_moves_basket :
  poseToZone_own "constructor" = None /\
  reachable started_world /\
  isGameActive (eng started_world) = true /\
  basketPosition (eng started_world) = InZone CENTER /\
  onPoseDetected "constructor" started_world =
    Some (tt, {| eng := set_basketPosition (Inherited "constructor") (eng started_world);
                 host := host started_world |},
          [BasketMove (Inherited "constructor")]) /\
  step started_world (EvPose "constructor") <>
    Done started_world [].
Proof.
  split; [reflexivity|]. split; [exact started_world_reachable|].
  split; [reflexivity|]. split; [reflexivity|].
  split; [vm_compute; reflexivity|]. vm_compute. discriminate.
Qed.

(** ** stop() (C7) *)

(** C7.  [stop()] never throws, and a second [stop()] right after it changes
    nothing and calls no callback. *)
Theorem stop_idempotent (w : World) :
  exists w1 t1,
    stop w = Some (tt, w1, t1) /\
    stop w1 = Some (tt, w1, []) /\
    step w EvStop = Done w1 t1 /\
    run w [EvStop; EvStop] = Done w1 t1 /\
    run w [EvStop] = Done w1 t1.
Proof.
  assert (E2 : stop {| eng := set_items [] (halted (eng w));
                       host := released (eng w) (host w) |} =
               Some (tt, {| eng := set_items [] (halted (eng w));
                            host := released (eng w) (host w) |}, [])).
  { rewrite stop_eq. destruct w as [e o], e, o. cbn.
    destruct onItemRemove0; reflexivity. }
  do 2 eexists. split; [apply stop_eq|]. split; [exact E2|].
  cbn [run step]. rewrite stop_eq. cbn [finish]. rewrite E2. cbn [finish].
  rewrite !app_nil_r. repeat split; reflexivity.
Qed.

(** ** The level-up timer (C8) *)

(** C8, counterexample.  The claim has every firing emit a score-change
    notification.  After four firings the engine is at level 5, still
    active, with the score-change callback registered: the next firing
    changes nothing and calls no callback. *)
Lemma level5_firing_is_silent :
  exists w5 tr,
    run started_world (repeat (EvInterval 1%positive) 4) = Done w5 tr /\
    reachable w5 /\
    level (eng w5) = 5 /\ isGameActive (eng w5) = true /\
    onScoreChange (eng w5) = true /\
    step w5 (EvInterval 1%positive) = Done w5 [].
Proof.
  destruct (run started_world (repeat (EvInterval 1%positive) 4)) as [w5 tr| |] eqn:E;
    try (vm_compute in E; discriminate).
  exists w5, tr. split; [reflexivity|].
  split; [exact (run_reachable _ _ _ _ started_world_reachable E)|].
  vm_compute in E. injection E as <- <-. repeat split.
Qed.

(** C8, as amended.  [startLevelUpTimer] arms one interval of 20 000 ms.  A
    firing of it below level 5 adds 1 to the level, changes no other field,
    and then reports the state through the (guarded) score-change callback;
    at level 5 a firing changes nothing and reports nothing.  In 20 000 ms
    the interval fires once: from level 1 the engine is at level 2 and the
    callback has been called exactly once, with the old score, missCount and
    combo. *)
Theorem levelUp_firing (w : World) :
  let e := eng w in
  let n := ScoreChange (score e) (level e + 1) (missCount e) (maxMisses e) (combo e) in
  levelUpPeriod = 20000 /\
  (exists w', startLevelUpTimer w = Some (tt, w', []) /\
     levelUpTimer (eng w') = Some (nextHandle (host w)) /\
     intervals (host w') = intervals (host w) ++ [(nextHandle (host w), levelUpPeriod)]) /\
  (forall h, mem h (map fst (intervals (host w))) = true ->
     step w (EvInterval h) = finish (levelUpTick w)) /\
  (level e < 5 ->
     let e' := set_level (level e + 1) e in
     levelUpTick w = Some (tt, {| eng := e'; host := host w |}, notes (onScoreChange e) n) /\
     (onScoreChange e = true -> notes (onScoreChange e) n = [n]) /\
     level e' = level e + 1 /\
     score e' = score e /\ combo e' = combo e /\ missCount e' = missCount e /\
     fruitsCaught e' = fruitsCaught e /\ basketPosition e' = basketPosition e /\
     items e' = items e) /\
  (5 <= level e -> levelUpTick w = Some (tt, w, [])) /\
  (level e = 1 -> onScoreChange e = true ->
     interval_firings levelUpPeriod 20000 = 1%nat /\
     fire (interval_firings levelUpPeriod 20000) levelUpTick w =
       Some (tt, {| eng := set_level 2 e; host := host w |},
             [ScoreChange (score e) 2 (missCount e) (maxMisses e) (combo e)])).
Proof.
  intros e n. split; [reflexivity|]. split.
  { eexists. split; [apply startLevelUpTimer_eq|]. split; reflexivity. }
  split.
  { intros h Hh. cbn [step]. now rewrite Hh. }
  split; [|split].
  - intros Hl e'. rewrite levelUpTick_eq. apply Z.ltb_lt in Hl. fold e. rewrite Hl.
    split; [reflexivity|]. split; [now intros ->|]. repeat split.
  - intros Hl. rewrite levelUpTick_eq. apply Z.ltb_ge in Hl. fold e. now rewrite Hl.
  - intros Hl Hcb. split; [reflexivity|].
    change (interval_firings levelUpPeriod 20000) with 1%nat. cbn [fire].
    unfold bind. rewrite levelUpTick_eq. fold e. rewrite Hl. cbn.
    fold e. rewrite Hcb. reflexivity.
Qed.

Lemma levelUp_firing_witness :
  let w := started_world in
  let w5 := {| eng := set_level 5 (eng w); host := host w |} in
  fire (interval_firings levelUpPeriod 20000) levelUpTick w =
    Some (tt, {| eng := set_level 2 (eng w); host := host w |},
          [ScoreChange (score (eng w)) 2 (missCount (eng w)) (maxMisses (eng w))
             (combo (eng w))]) /\
  step w (EvInterval 1%positive) = finish (levelUpTick w) /\
  levelUpTick w5 = Some (tt, w5, []).
Proof.
  split; [apply (levelUp_firing started_world); reflexivity|].
  split; [apply (levelUp_firing started_world); reflexivity|].
  apply (levelUp_firing {| eng := set_level 5 (eng started_world);
                           host := host started_world |}).
  cbn. lia.
Defined.

(** ** endGame and the collection (C9) *)

(** C9.  [endGame(reason)] cancels the three timers it holds handles of and
    calls (at most) the game-ended callback; it calls no item-removed
    callback and leaves [items] as it is.  The items stay in the collection
    through whatever happens before the next [stop()] or [start()], and no
    removal is reported for them meanwhile; [stop()] then empties the
    collection. *)
Theorem endGame_keeps_items (reason : string) (w : World) :
  let w1 := {| eng := halted (eng w); host := released (eng w) (host w) |} in
  let t1 := notes (onGameEnd (eng w))
              (GameEnd reason (score (eng w)) (level (eng w)) (fruitsCaught (eng w))) in
  endGame reason w = Some (tt, w1, t1) /\
  items (eng w1) = items (eng w) /\
  removed_ids t1 = [] /\
  isGameActive (eng w1) = false /\
  levelUpTimer (eng w1) = None /\ itemSpawnTimer (eng w1) = None /\
  animationId (eng w1) = None /\
  (forall h, levelUpTimer (eng w) = Some h -> mem h (map fst (intervals (host w1))) = false) /\
  (forall h, itemSpawnTimer (eng w) = Some h -> mem h (timeouts (host w1)) = false) /\
  (forall h, animationId (eng w) = Some h -> mem h (frames (host w1)) = false) /\
  (forall evs w2 t2, forallb idle_event evs = true -> run w1 evs = Done w2 t2 ->
     items (eng w2) = items (eng w) /\ removed_ids t2 = []) /\
  (exists w3 t3, step w1 EvStop = Done w3 t3 /\ items (eng w3) = []).
Proof.
  intros w1 t1. split; [apply endGame_eq|].
  split; [reflexivity|]. split; [unfold t1; notes_cases; reflexivity|].
  do 4 (split; [reflexivity|]).
  split; [intros h Hh; cbn; rewrite Hh; apply mem_drop_interval|].
  split; [intros h Hh; cbn; rewrite Hh; apply mem_drop|].
  split; [intros h Hh; cbn; rewrite Hh; apply mem_drop|].
  split.
  - intros evs w2 t2 Hev E.
    destruct (idle_run evs w1 w2 t2 eq_refl Hev E) as (_ & Hi & Hr). auto.
  - cbn [step]. rewrite stop_eq. do 2 eexists. split; reflexivity.
Qed.

Lemma endGame_keeps_items_witness :
  let w1 := {| eng := halted (eng started_world);
               host := released (eng started_world) (host started_world) |} in
  (exists w2 t2,
     run w1 [EvPose "좌"; EvSetCallback SlotBasketMove false] = Done w2 t2 /\
     items (eng w2) = items (eng started_world) /\ removed_ids t2 = []) /\
  mem 1%positive (map fst (intervals (host w1))) = false /\
  mem 2%positive (timeouts (host w1)) = false /\
  mem 3%positive (frames (host w1)) = false.
Proof.
  split.
  - eexists. eexists. split; [vm_compute; reflexivity|].
    apply (endGame_keeps_items reason_bomb started_world)
      with (evs := [EvPose "좌"; EvSetCallback SlotBasketMove false]).
    + reflexivity.
    + vm_compute. reflexivity.
  - destruct (endGame_keeps_items reason_bomb started_world)
      as (_ & _ & _ & _ & _ & _ & _ & Hi & Ht & Hf & _).
    exact (conj (Hi 1%positive eq_refl)
             (conj (Ht 2%positive eq_refl) (Hf 3%positive eq_refl))).
Defined.

(** ** Unregistered callbacks (C10) *)













(** * Further properties of the engine *)

(** ** Choosing the item type *)

Lemma probabilities_bracket lvl :
  probabilities (Z.min lvl 5) =
  if lvl <=? 2 then probabilities 1
  else if lvl <=? 4 then probabilities 3
  else probabilities 5.
Proof.
  unfold probabilities.
  destruct (Z.leb_spec lvl 2), (Z.leb_spec lvl 4),
    (Z.leb_spec (Z.min lvl 5) 2), (Z.leb_spec (Z.min lvl 5) 4); try lia; reflexivity.
Qed.

(** X1.  For every level and every draw [rand] below 1 (all that
    [Math.random()] returns), the walk over the cumulative sums returns in
    the loop, so that the default after the loop is never used: the five
    weights of each table add up to exactly 1 in floating point.  The walk
    gives the bomb only when [rand] is not below the fourth cumulative sum,
    and the level matters only through its bracket (up to 2, up to 4,
    above). *)
Theorem selectItemType_never_defaults (e : GameEngine) (rand : float) :
  (rand <? 1)%float = true ->
  walk rand 0%float (probabilities (Z.min (level e) 5)) = Some (selectItemType e rand) /\
  (selectItemType e rand = bomb ->
   (rand <? bombThreshold (Z.min (level e) 5))%float = false) /\
  selectItemType e rand =
    selectItemType (set_level (if level e <=? 2 then 1 else if level e <=? 4 then 3 else 5) e)
      rand.
Proof.
  intros H1. unfold selectItemType, bombThreshold. cbn [level set_level].
  rewrite !probabilities_bracket.
  destruct (level e <=? 2); [|destruct (level e <=? 4)];
    cbn [Z.min Z.leb Z.compare Pos.compare Pos.compare_cont];
    rewrite ?probabilities_bracket; cbn [Z.leb Z.compare Pos.compare Pos.compare_cont];
    vm_compute probabilities; cbn [walk firstn fold_left snd];
    repeat match goal with
           | |- context [(?a + ?b)%float] =>
               let v := eval vm_compute in (a + b)%float in
               change (a + b)%float with v
           end;
    rewrite H1;
    repeat match goal with
           | |- context [if (rand <? ?c)%float then _ else _] =>
               destruct (rand <? c)%float eqn:?
           end;
    repeat split; intros; try discriminate; try reflexivity; congruence.
Qed.

Lemma selectItemType_never_defaults_witness :
  walk 0.5%float 0%float (probabilities (Z.min (level constructor) 5)) =
    Some (selectItemType constructor 0.5%float) /\
  selectItemType constructor 0.5%float = banana.
Proof.
  split; [|vm_compute; reflexivity].
  apply (selectItemType_never_defaults constructor 0.5%float). vm_compute. reflexivity.
Defined.

(** ** What resolving the landed items preserves *)

Ltac resolve_cases item w Hf :=
  rewrite resolve_eq;
  destruct (checkCollision (eng w) item);
  destruct (isFruit (itemTypes (type item))) eqn:Hf;
  [ rewrite handleItemCatch_fruit_eq by exact Hf
  | rewrite handleItemCatch_bomb_eq, endGame_eq by exact Hf
  | rewrite handleItemMiss_fruit_eq by exact Hf; cbv zeta;
    destruct (maxMisses (missed (eng w)) <=? missCount (missed (eng w)))
  | rewrite handleItemMiss_bomb_eq by exact Hf ];
  let E := fresh "E" in
  intros E; injection E as <- <-.

Lemma resolveAll_preserves (P : World -> Prop) :
  (forall item w w' t, P w -> resolve item w = Some (tt, w', t) -> P w') ->
  forall l w w' t, P w -> resolveAll l w = Some (tt, w', t) -> P w'.
Proof.
  intros Hstep. induction l as [|item rest IH]; intros w w' t HP.
  - cbn. intros E; injection E as <- _. exact HP.
  - cbn [resolveAll]. intros E.
    apply bind_inv in E as ([] & w1 & t1 & t2 & E1 & E2 & _).
    eapply IH; [|exact E2]. eapply Hstep; eauto.
Qed.

Lemma fruit_value ty : isFruit (itemTypes ty) = true -> 100 <= itemScore (itemTypes ty) <= 250.
Proof. destruct ty; cbn; intros; try discriminate; lia. Qed.

Lemma comboBonus_range c : 0 <= comboBonus c <= 100.
Proof. unfold comboBonus. destruct (c =? 5), (c =? 10); lia. Qed.

Lemma resolve_tally item w w' t :
  tally (eng w) -> resolve item w = Some (tt, w', t) -> tally (eng w').
Proof.
  intros T. revert w' t. unfold tally in *.
  assert (Hv := fruit_value (type item)).
  assert (Hb := comboBonus_range (combo (eng w) + 1)).
  intros w' t. resolve_cases item w Hf; cbn -[Z.mul]; try specialize (Hv eq_refl); lia.
Qed.

Lemma resolve_counters item w w' t :
  resolve item w = Some (tt, w', t) -> counters_le (eng w) (eng w').
Proof.
  assert (Hv := fruit_value (type item)).
  assert (Hb := comboBonus_range (combo (eng w) + 1)).
  unfold counters_le. resolve_cases item w Hf; cbn -[Z.mul]; try specialize (Hv eq_refl); lia.
Qed.

Lemma counters_le_refl e : counters_le e e.
Proof. unfold counters_le. lia. Qed.

Lemma counters_le_trans e1 e2 e3 :
  counters_le e1 e2 -> counters_le e2 e3 -> counters_le e1 e3.
Proof. unfold counters_le. lia. Qed.

Lemma resolveAll_counters l w w' t :
  resolveAll l w = Some (tt, w', t) -> counters_le (eng w) (eng w').
Proof.
  apply (resolveAll_preserves (fun x => counters_le (eng w) (eng x))).
  - intros item u u' s H E. eapply counters_le_trans; [exact H|].
    eapply resolve_counters; eauto.
  - apply counters_le_refl.
Qed.

Lemma resolve_timersOK item w w' t :
  timersOK w -> resolve item w = Some (tt, w', t) -> timersOK w'.
Proof.
  unfold timersOK. intros T. revert w' t. intros w' t.
  resolve_cases item w Hf; cbn; auto.
Qed.

Lemma existsb_app_GameEnd t1 t2 :
  existsb isGameEnd (t1 ++ t2) = existsb isGameEnd t1 || existsb isGameEnd t2.
Proof. apply existsb_app. Qed.

Lemma resolve_GameEnd item w w' t :
  resolve item w = Some (tt, w', t) ->
  existsb isGameEnd t = true -> isGameActive (eng w') = false.
Proof.
  resolve_cases item w Hf; cbn; auto; unfold notes;
    repeat match goal with
           | |- context [if ?b then _ else _] => destruct b
           end; cbn; intros; try discriminate; reflexivity.
Qed.

Lemma resolveAll_GameEnd l : forall w w' t,
  resolveAll l w = Some (tt, w', t) ->
  (existsb isGameEnd t = true \/ isGameActive (eng w) = false) ->
  isGameActive (eng w') = false.
Proof.
  induction l as [|item rest IH]; intros w w' t.
  - cbn. intros E; injection E as <- <-. cbn. intros [H|H]; [discriminate|exact H].
  - cbn [resolveAll]. intros E.
    apply bind_inv in E as ([] & w1 & t1 & t2 & E1 & E2 & ->).
    rewrite existsb_app_GameEnd. intros H.
    apply (IH _ _ _ E2).
    destruct (existsb isGameEnd t2) eqn:H2; [now left|]. right.
    rewrite orb_false_r in H. destruct H as [H|H].
    + eapply resolve_GameEnd; eauto.
    + destruct (resolve_spec item w) as (u & s & Eu & Hs & _).
      rewrite E1 in Eu. injection Eu as <- <-.
      destruct (isGameActive (eng w1)) eqn:A; [|reflexivity].
      rewrite (st_active _ _ _ Hs A) in H. discriminate.
Qed.

(** ** Creation order, scoreboard and timers in reachable states *)

Lemma removeById_Forall (P : Z -> Prop) i l :
  Forall P (map id l) -> Forall P (map id (removeById i l)).
Proof.
  induction l as [|a l IH]; cbn; [auto|].
  intros H. inversion H as [|? ? Ha Hl]; subst.
  destruct (id a =? i); [exact Hl|]. cbn. constructor; auto.
Qed.

Lemma removeById_sorted i l :
  StronglySorted Z.lt (map id l) -> StronglySorted Z.lt (map id (removeById i l)).
Proof.
  induction l as [|a l IH]; cbn; [auto|].
  intros H. inversion H as [|? ? Hs Ha]; subst.
  destruct (id a =? i); [exact Hs|]. cbn. constructor; [auto|].
  now apply removeById_Forall.
Qed.

Lemma evict_Forall (P : Z -> Prop) ids : forall l,
  Forall P (map id l) -> Forall P (map id (evict ids l)).
Proof.
  induction ids as [|i ids IH]; intros l H; [exact H|].
  cbn [evict fold_left]. apply IH. now apply removeById_Forall.
Qed.

Lemma evict_sorted ids : forall l,
  StronglySorted Z.lt (map id l) -> StronglySorted Z.lt (map id (evict ids l)).
Proof.
  induction ids as [|i ids IH]; intros l H; [exact H|].
  cbn [evict fold_left]. apply IH. now apply removeById_sorted.
Qed.

Lemma sorted_snoc l n :
  StronglySorted Z.lt l -> Forall (fun i => i < n) l -> StronglySorted Z.lt (l ++ [n]).
Proof.
  induction 1 as [|a l Hs IH Ha]; intros Hn; cbn.
  - repeat constructor.
  - inversion Hn as [|? ? Han Hln]; subst. constructor; [auto|].
    apply Forall_app. split; [exact Ha|]. repeat constructor. exact Han.
Qed.

Lemma pushed_ordered d e : ordered e -> ordered (pushed d e).
Proof.
  intros (Hs & Hb & Hn). unfold ordered; cbn. rewrite map_app. cbn.
  split; [|split; [|lia]].
  - apply sorted_snoc; [exact Hs|].
    eapply Forall_impl; [|exact Hb]. cbn. intros; lia.
  - apply Forall_app. split.
    + eapply Forall_impl; [|exact Hb]. cbn. intros; lia.
    + repeat constructor; lia.
Qed.

Lemma ordered_ext e e' :
  items e = items e' -> itemIdCounter e = itemIdCounter e' -> ordered e -> ordered e'.
Proof.
  unfold ordered. intros <- <-. exact (fun H => H).
Qed.

Lemma spawned_ordered d w : ordered (pushed d (eng w)) -> ordered (eng (spawned d w)).
Proof.
  exact (fun H => H).
Qed.

Lemma ordered_NoDup e : ordered e -> NoDup (map id (items e)).
Proof.
  intros (Hs & _ & _). induction Hs as [|a l Hs IH Ha]; constructor; auto.
  intros Hin. rewrite Forall_forall in Ha. specialize (Ha _ Hin). lia.
Qed.

Lemma swept_ordered now w w' t : swept now w w' t -> ordered (eng w) -> ordered (eng w').
Proof.
  intros (c & w1 & t1 & _ & _ & Hs & _ & -> & _) (Ho & Hb & Hn).
  unfold ordered; cbn. rewrite (st_counter _ _ _ Hs).
  split; [now apply evict_sorted|]. split; [now apply evict_Forall|exact Hn].
Qed.

Lemma swept_tally now w w' t : swept now w w' t -> tally (eng w) -> tally (eng w').
Proof.
  intros (c & w1 & t1 & _ & E & _ & _ & -> & _) T.
  apply (resolveAll_preserves (fun x => tally (eng x)) resolve_tally _ _ _ _ T E).
Qed.

Lemma swept_timersOK now w w' t : swept now w w' t -> timersOK w -> timersOK w'.
Proof.
  intros (c & w1 & t1 & _ & E & _ & _ & -> & _) T.
  apply (resolveAll_preserves timersOK resolve_timersOK _ _ _ _ T E).
Qed.

Lemma swept_counters now w w' t : swept now w w' t -> counters_le (eng w) (eng w').
Proof.
  intros (c & w1 & t1 & _ & E & _ & _ & -> & _).
  apply (resolveAll_counters _ _ _ _ E).
Qed.

Lemma mem_app_last h l : mem h (l ++ [h]) = true.
Proof.
  unfold mem. rewrite existsb_app. cbn. rewrite Pos.eqb_refl. now rewrite orb_true_r.
Qed.

Lemma mem_drop_other h h' l : h <> h' -> mem h (drop h' l) = mem h l.
Proof.
  intros Hne. unfold mem, drop. induction l as [|a l IH]; cbn; [reflexivity|].
  destruct (Pos.eqb_spec a h'); cbn.
  - subst a. destruct (Pos.eqb_spec h h'); [contradiction|]. cbn. exact IH.
  - now rewrite IH.
Qed.

Lemma looped_frameOK w : frameOK (looped w).
Proof.
  intros _. exists (nextHandle (host w)). split; [reflexivity|]. cbn. apply mem_app_last.
Qed.

Lemma spawned_timersOK d w :
  isGameActive (eng w) = true ->
  pending_in (levelUpTimer (eng w)) (map fst (intervals (host w))) ->
  timersOK (spawned d w).
Proof.
  intros Ha Hi. unfold timersOK; cbn. rewrite Ha. split; [exact Hi|].
  exists (nextHandle (host w)). split; [reflexivity|apply mem_app_last].
Qed.

Lemma step_Good w ev w' t :
  Inv (eng w) -> Good w -> step w ev = Done w' t -> Good w'.
Proof.
  intros [Hl _] (Ho & Ht & Hti & Hf).
  destruct ev as [k v|t0 d tLoop| |pose|h|h d|h now].
  - cbn. intros E; injection E as <- _.
    exact (conj Ho (conj Ht (conj Hti Hf))).
  - cbn [step]. destruct (start_spec t0 d tLoop w) as (c & w1 & t1 & _ & Hs & ->).
    cbn. intros E; injection E as <- _.
    assert (O0 : ordered (eng (restarted t0 w))).
    { unfold ordered; cbn. repeat constructor; lia. }
    assert (O1 : ordered (eng (spawned d (restarted t0 w)))).
    { apply spawned_ordered, pushed_ordered. exact O0. }
    assert (T1 : tally (eng (spawned d (restarted t0 w)))) by (unfold tally; cbn; lia).
    assert (Ti1 : timersOK (spawned d (restarted t0 w))).
    { apply spawned_timersOK; [reflexivity|].
      exists (nextHandle (host w)). split; [reflexivity|].
      cbn. rewrite map_app. cbn. apply mem_app_last. }
    split; [exact (swept_ordered _ _ _ _ Hs O1)|].
    split; [exact (swept_tally _ _ _ _ Hs T1)|].
    split; [exact (swept_timersOK _ _ _ _ Hs Ti1)|apply looped_frameOK].
  - cbn [step]. rewrite stop_eq. cbn. intros E; injection E as <- _.
    split; [|split; [exact Ht|split; [split; reflexivity|discriminate]]].
    destruct Ho as (_ & _ & Hn). unfold ordered; cbn. repeat constructor. exact Hn.
  - cbn [step]. rewrite onPoseDetected_eq.
    destruct (isGameActive (eng w)) eqn:A;
      [destruct (poseToZone pose) as [p|];
       [destruct (Position_eqb p (basketPosition (eng w)))|]|];
      cbn; intros E; injection E as <- _;
      exact (conj Ho (conj Ht (conj Hti Hf))).
  - cbn [step]. destruct (mem h (map fst (intervals (host w)))); [|discriminate].
    rewrite levelUpTick_eq. destruct (level (eng w) <? 5); cbn;
      intros E; injection E as <- _; exact (conj Ho (conj Ht (conj Hti Hf))).
  - rewrite step_timeout_eq. destruct (mem h (timeouts (host w))); [|discriminate].
    destruct (spawnItem_spec d (without_timeout h w) Hl) as (c & _ & ->). cbn.
    destruct (isGameActive (eng w)) eqn:A; cbn; intros E; injection E as <- _.
    + split; [exact (pushed_ordered d _ Ho)|]. split; [exact Ht|]. split.
      * apply spawned_timersOK; [exact A|].
        unfold timersOK in Hti. rewrite A in Hti. exact (proj1 Hti).
      * intros _. exact (Hf A).
    + split; [exact Ho|]. split; [exact Ht|]. split.
      * unfold timersOK in *; cbn. rewrite A in *. exact Hti.
      * intros B. cbn in B. congruence.
  - rewrite step_frame_eq. destruct (mem h (frames (host w))); [|discriminate].
    pose proof (gameLoop_spec now (without_frame h w) Hl) as G. cbn in G.
    destruct (isGameActive (eng w)) eqn:A.
    + destruct G as (w1 & t1 & -> & Hs). cbn. intros E; injection E as <- _.
      split; [exact (swept_ordered _ _ _ _ Hs Ho)|].
      split; [exact (swept_tally _ _ _ _ Hs Ht)|].
      split; [|apply looped_frameOK].
      apply (swept_timersOK _ _ _ _ Hs).
      unfold timersOK in *; cbn. rewrite A in *. exact Hti.
    + rewrite G. cbn. intros E; injection E as <- _.
      split; [exact Ho|]. split; [exact Ht|]. split.
      * unfold timersOK in *; cbn. rewrite A in *. exact Hti.
      * intros B. cbn in B. congruence.
Qed.

Lemma reachable_Good w : reachable w -> Good w.
Proof.
  induction 1 as [|w ev w' tr Hr IH E].
  - unfold Good, ordered, tally, timersOK, frameOK; cbn.
    repeat split; try lia; try constructor; discriminate.
  - exact (step_Good _ _ _ _ (reachable_Inv _ Hr) IH E).
Qed.

Lemma run_from_new evs w t : run new_world evs = Done w t -> reachable w.
Proof. apply run_reachable. constructor. Qed.

(** X2.  In every state a page can reach, the collection holds its items in
    creation order: the ids are strictly increasing, hence distinct, all of
    them lie between 0 and the id counter, and the id counter is not
    negative. *)
Theorem items_in_creation_order (evs : list Event) (w : World) (tr : Trace) :
  run new_world evs = Done w tr ->
  StronglySorted Z.lt (map id (items (eng w))) /\
  NoDup (map id (items (eng w))) /\
  Forall (fun i => 0 <= i < itemIdCounter (eng w)) (map id (items (eng w))) /\
  0 <= itemIdCounter (eng w).
Proof.
  intros E. destruct (reachable_Good w (run_from_new _ _ _ E)) as (Ho & _).
  split; [exact (proj1 Ho)|]. split; [exact (ordered_NoDup _ Ho)|].
  split; [exact (proj1 (proj2 Ho))|exact (proj2 (proj2 Ho))].
Qed.

Lemma items_in_creation_order_witness :
  exists w tr,
    run new_world (setupGameCallbacks ++ firstn 3 late_frame) = Done w tr /\
    map id (items (eng w)) = [0; 1; 2] /\
    StronglySorted Z.lt (map id (items (eng w))) /\
    0 <= itemIdCounter (eng w).
Proof.
  destruct (run new_world (setupGameCallbacks ++ firstn 3 late_frame)) as [w tr| |] eqn:E;
    try (vm_compute in E; discriminate).
  exists w, tr. split; [reflexivity|].
  split; [vm_compute in E; injection E as <- _; reflexivity|].
  destruct (items_in_creation_order _ w tr E) as (Hs & _ & _ & Hn).
  split; [exact Hs|exact Hn].
Defined.

(** X3.  In every state a page can reach the scoreboard is consistent: the
    combo is not negative and not above the number of fruits caught, and
    the score is at least 100 points per fruit caught (so never negative). *)
Theorem scoreboard_consistent (evs : list Event) (w : World) (tr : Trace) :
  run new_world evs = Done w tr ->
  0 <= combo (eng w) <= fruitsCaught (eng w) /\
  100 * fruitsCaught (eng w) <= score (eng w) /\
  0 <= score (eng w).
Proof.
  intros E. destruct (reachable_Good w (run_from_new _ _ _ E)) as (_ & (Hc & Hs) & _).
  split; [exact Hc|]. split; [exact Hs|lia].
Qed.

Lemma scoreboard_consistent_witness :
  exists w tr,
    run new_world (setupGameCallbacks ++ apple_then_bomb) = Done w tr /\
    fruitsCaught (eng w) = 1 /\ 100 * fruitsCaught (eng w) <= score (eng w).
Proof.
  destruct (run new_world (setupGameCallbacks ++ apple_then_bomb)) as [w tr| |] eqn:E;
    try (vm_compute in E; discriminate).
  exists w, tr. split; [reflexivity|].
  split; [vm_compute in E; injection E as <- _; reflexivity|].
  exact (proj1 (proj2 (scoreboard_consistent _ w tr E))).
Defined.

(** X4.  In every state a page can reach, an active engine holds the
    handles of a pending level-up interval, a pending spawn timeout and a
    pending animation frame (the game cannot stall), and an inactive engine
    holds neither an interval nor a timeout handle. *)
Theorem active_engine_is_armed (evs : list Event) (w : World) (tr : Trace) :
  run new_world evs = Done w tr ->
  (isGameActive (eng w) = true ->
   pending_in (levelUpTimer (eng w)) (map fst (intervals (host w))) /\
   pending_in (itemSpawnTimer (eng w)) (timeouts (host w)) /\
   pending_in (animationId (eng w)) (frames (host w))) /\
  (isGameActive (eng w) = false ->
   levelUpTimer (eng w) = None /\ itemSpawnTimer (eng w) = None).
Proof.
  intros E. destruct (reachable_Good w (run_from_new _ _ _ E)) as (_ & _ & Ht & Hf).
  unfold timersOK in Ht. split; intros A; rewrite A in Ht.
  - destruct Ht as [H1 H2]. split; [exact H1|]. split; [exact H2|exact (Hf A)].
  - exact Ht.
Qed.

Lemma active_engine_is_armed_witness :
  exists w tr,
    run new_world (setupGameCallbacks ++ firstn 3 late_frame) = Done w tr /\
    pending_in (levelUpTimer (eng w)) (map fst (intervals (host w))) /\
    pending_in (itemSpawnTimer (eng w)) (timeouts (host w)) /\
    pending_in (animationId (eng w)) (frames (host w)).
Proof.
  destruct (run new_world (setupGameCallbacks ++ firstn 3 late_frame)) as [w tr| |] eqn:E;
    try (vm_compute in E; discriminate).
  exists w, tr. split; [reflexivity|].
  apply (active_engine_is_armed _ w tr E).
  vm_compute in E. injection E as <- _. reflexivity.
Defined.

(** ** Counters only grow within a session *)

Lemma step_counters w ev w' t :
  levelOK (eng w) -> restarts ev = false -> step w ev = Done w' t ->
  counters_le (eng w) (eng w').
Proof.
  intros Hl Hev.
  destruct ev as [k v|t0 d tLoop| |pose|h|h d|h now]; try discriminate; clear Hev.
  - cbn. intros E; injection E as <- _. unfold counters_le; cbn; lia.
  - cbn [step]. rewrite stop_eq. cbn. intros E; injection E as <- _.
    unfold counters_le; cbn; lia.
  - cbn [step]. rewrite onPoseDetected_eq.
    destruct (isGameActive (eng w));
      [destruct (poseToZone pose) as [p|];
       [destruct (Position_eqb p (basketPosition (eng w)))|]|];
      cbn; intros E; injection E as <- _; unfold counters_le; cbn; lia.
  - cbn [step]. destruct (mem h (map fst (intervals (host w)))); [|discriminate].
    rewrite levelUpTick_eq. destruct (level (eng w) <? 5); cbn;
      intros E; injection E as <- _; unfold counters_le; cbn; lia.
  - rewrite step_timeout_eq. destruct (mem h (timeouts (host w))); [|discriminate].
    destruct (spawnItem_spec d (without_timeout h w) Hl) as (c & _ & ->). cbn.
    destruct (isGameActive (eng w)); cbn; intros E; injection E as <- _;
      unfold counters_le; cbn; lia.
  - rewrite step_frame_eq. destruct (mem h (frames (host w))); [|discriminate].
    pose proof (gameLoop_spec now (without_frame h w) Hl) as G. cbn in G.
    destruct (isGameActive (eng w)).
    + destruct G as (w1 & t1 & -> & Hs). cbn. intros E; injection E as <- _.
      exact (swept_counters _ _ _ _ Hs).
    + rewrite G. cbn. intros E; injection E as <- _. unfold counters_le; cbn; lia.
Qed.

Lemma run_counters evs : forall w w' t,
  Inv (eng w) -> forallb (fun ev => negb (restarts ev)) evs = true ->
  run w evs = Done w' t -> counters_le (eng w) (eng w').
Proof.
  induction evs as [|ev evs IH]; intros w w' t HI Hev; cbn [run].
  - intros E; injection E as <- _. apply counters_le_refl.
  - cbn in Hev. apply andb_prop in Hev as [Hev Hevs]. apply negb_true_iff in Hev.
    destruct (step w ev) as [w1 t1| |] eqn:E1; try discriminate.
    destruct (run w1 evs) as [w2 t2| |] eqn:E2; try discriminate.
    intros E; injection E as <- _.
    assert (HI1 : Inv (eng w1)).
    { destruct (step_Inv w ev HI) as [N|(x & y & Ex & Hx)]; congruence. }
    eapply counters_le_trans; [exact (step_counters _ _ _ _ (proj1 HI) Hev E1)|].
    exact (IH _ _ _ HI1 Hevs E2).
Qed.

(** X5.  Between two calls of [start()] nothing ever decreases the score,
    the level, the miss counter, the number of fruits caught or the id
    counter: from a reachable state, after any events other than a start,
    each of them is at least what it was. *)
Theorem counters_never_decrease (evs1 evs2 : list Event) (w w' : World) (t1 t2 : Trace) :
  run new_world evs1 = Done w t1 ->
  forallb (fun ev => negb (restarts ev)) evs2 = true ->
  run w evs2 = Done w' t2 ->
  score (eng w) <= score (eng w') /\ level (eng w) <= level (eng w') /\
  missCount (eng w) <= missCount (eng w') /\
  fruitsCaught (eng w) <= fruitsCaught (eng w') /\
  itemIdCounter (eng w) <= itemIdCounter (eng w').
Proof.
  intros E1 Hev E2.
  exact (run_counters evs2 w w' t2 (reachable_Inv _ (run_from_new _ _ _ E1)) Hev E2).
Qed.

Lemma counters_never_decrease_witness :
  exists w t1 w' t2,
    run new_world (setupGameCallbacks ++ firstn 1 apple_then_bomb) = Done w t1 /\
    run w (skipn 1 apple_then_bomb) = Done w' t2 /\
    score (eng w) = 0 /\ score (eng w') = 100 /\
    score (eng w) <= score (eng w').
Proof.
  destruct (run new_world (setupGameCallbacks ++ firstn 1 apple_then_bomb))
    as [w t1| |] eqn:E1; try (vm_compute in E1; discriminate).
  destruct (run w (skipn 1 apple_then_bomb)) as [w' t2| |] eqn:E2;
    try (vm_compute in E1; injection E1 as <- _; vm_compute in E2; discriminate).
  exists w, t1, w', t2. split; [reflexivity|]. split; [exact E2|].
  pose proof (counters_never_decrease _ (skipn 1 apple_then_bomb) w w' t1 t2 E1 eq_refl E2)
    as (Hs & _).
  vm_compute in E1. injection E1 as <- _. vm_compute in E2. injection E2 as <- _.
  split; [reflexivity|]. split; [reflexivity|]. exact Hs.
Defined.

(** ** One tick *)

Lemma updateItems_keeps now w :
  levelOK (eng w) -> NoDup (map id (items (eng w))) ->
  exists c w' t,
    levelConfig (Z.min (level (eng w)) 5) = Some c /\
    updateItems now w = Some (tt, w', t) /\
    level (eng w') = level (eng w) /\
    items (eng w') = filter (fun item => negb (landed c now item)) (items (eng w)).
Proof.
  intros Hl Hnd.
  destruct (updateItems_spec now w Hl) as (w' & t & E & c & w1 & t1 & Hc & _ & Hs & _ & Hw & _).
  cbv zeta in Hw. exists c, w', t. split; [exact Hc|]. split; [exact E|].
  rewrite Hw. cbn [eng set_items items level]. split.
  - rewrite <- (st_level _ _ _ Hs). destruct (eng w1); reflexivity.
  - transitivity (evict (map id (filter (landed c now) (items (eng w)))) (items (eng w))).
    + destruct (eng w1); reflexivity.
    + now apply evict_landed.
Qed.

(** X6.  One [updateItems] at a valid level, on a collection with distinct
    ids: the items that have not landed stay, untouched and in order; the
    landed ones are gone; the item-removed calls come after everything the
    resolutions reported, one per landed item in collection order (none
    when the callback is not registered); no item is reported created.
    When no item has landed the tick changes nothing and reports nothing. *)
Theorem updateItems_batch (now : Z) (w : World) :
  levelOK (eng w) -> NoDup (map id (items (eng w))) ->
  exists c w' t1,
    levelConfig (Z.min (level (eng w)) 5) = Some c /\
    let gone := filter (landed c now) (items (eng w)) in
    updateItems now w =
      Some (tt, w', t1 ++ (if onItemRemove (eng w)
                           then map (fun item => ItemRemove (id item)) gone else [])) /\
    items (eng w') = filter (fun item => negb (landed c now item)) (items (eng w)) /\
    removed_ids t1 = [] /\ created_ids t1 = [] /\
    (gone = [] ->
     t1 = [] /\ getGameState (eng w') = getGameState (eng w) /\ host w' = host w /\
     items (eng w') = items (eng w)).
Proof.
  intros Hl Hnd.
  destruct (updateItems_spec now w Hl) as (w' & t & E & c & w1 & t1 & Hc & R & Hs & _ & Hw & Ht).
  cbv zeta in Hw, Ht. exists c, w', t1. split; [exact Hc|]. cbv zeta.
  rewrite E, Ht, map_map. split; [reflexivity|].
  split; [rewrite Hw; cbn; now apply evict_landed|].
  split; [exact (st_removed _ _ _ Hs)|]. split; [exact (st_created _ _ _ Hs)|].
  intros Hg. rewrite Hg in R. cbn in R. injection R as <- <-.
  rewrite Hw, Hg. cbn. repeat split.
Qed.

Lemma updateItems_batch_witness :
  exists c w' t1,
    levelConfig (Z.min (level (eng started_world)) 5) = Some c /\
    items (eng w') =
      filter (fun item => negb (landed c 4000 item)) (items (eng started_world)) /\
    removed_ids t1 = [].
Proof.
  destruct (updateItems_batch 4000 started_world) as (c & w' & t1 & Hc & _ & Hi & Hr & _).
  - unfold levelOK. vm_compute. split; discriminate.
  - vm_compute. repeat constructor. intros [].
  - exists c, w', t1. split; [exact Hc|]. split; [exact Hi|exact Hr].
Defined.

Lemma existsb_notes b n : existsb isGameEnd (notes b n) = b && isGameEnd n.
Proof. destruct b; cbn; [now rewrite orb_false_r|reflexivity]. Qed.

Lemma existsb_removals b ids :
  existsb isGameEnd (if b : bool then map ItemRemove ids else []) = false.
Proof. destruct b; [|reflexivity]. induction ids; cbn; auto. Qed.

Lemma swept_GameEnd now w w' t :
  swept now w w' t -> existsb isGameEnd t = true -> isGameActive (eng w') = false.
Proof.
  intros (c & w1 & t1 & _ & R & _ & _ & -> & ->).
  rewrite existsb_app_GameEnd, existsb_removals, orb_false_r. intros H. cbn.
  apply (resolveAll_GameEnd _ _ _ _ R). now left.
Qed.

Lemma step_GameEnd_inactive w ev w' t :
  reachable w -> step w ev = Done w' t -> existsb isGameEnd t = true ->
  isGameActive (eng w') = false.
Proof.
  intros Hr. pose proof (proj1 (reachable_Inv _ Hr)) as Hl.
  destruct ev as [k v|t0 d tLoop| |pose|h|h d|h now].
  - cbn. intros E; injection E as <- <-. discriminate.
  - cbn [step]. destruct (start_spec t0 d tLoop w) as (c & w1 & t1 & _ & Hs & ->).
    cbn. intros E; injection E as <- <-.
    rewrite !existsb_app_GameEnd, !existsb_notes. cbn. rewrite !andb_false_r. cbn.
    intros Hg. exact (swept_GameEnd _ _ _ _ Hs Hg).
  - cbn [step]. rewrite stop_eq. cbn. intros E; injection E as <- <-. reflexivity.
  - cbn [step]. rewrite onPoseDetected_eq.
    destruct (isGameActive (eng w));
      [destruct (poseToZone pose) as [p|];
       [destruct (Position_eqb p (basketPosition (eng w)))|]|];
      cbn; intros E; injection E as <- <-; try discriminate; try reflexivity.
    rewrite existsb_notes. cbn. rewrite andb_false_r. discriminate.
  - cbn [step]. destruct (mem h (map fst (intervals (host w)))); [|discriminate].
    rewrite levelUpTick_eq. destruct (level (eng w) <? 5); cbn;
      intros E; injection E as <- <-; try discriminate.
    rewrite existsb_notes. cbn. rewrite andb_false_r. discriminate.
  - rewrite step_timeout_eq. destruct (mem h (timeouts (host w))); [|discriminate].
    destruct (spawnItem_spec d (without_timeout h w) Hl) as (c & _ & ->). cbn.
    destruct (isGameActive (eng w)); cbn; intros E; injection E as <- <-;
      try discriminate.
    rewrite existsb_notes. cbn. rewrite andb_false_r. discriminate.
  - rewrite step_frame_eq. destruct (mem h (frames (host w))); [|discriminate].
    pose proof (gameLoop_spec now (without_frame h w) Hl) as G. cbn in G.
    destruct (isGameActive (eng w)).
    + destruct G as (w1 & t1 & -> & Hs). cbn. intros E; injection E as <- <-.
      intros Hg. exact (swept_GameEnd _ _ _ _ Hs Hg).
    + rewrite G. cbn. intros E; injection E as <- <-. discriminate.
Qed.

(** X7.  Whenever an event makes the engine call the game-ended callback,
    the engine is inactive when the event is over, and holds no interval
    and no timeout handle. *)
Theorem game_ended_means_inactive (evs : list Event) (w : World) (tr : Trace)
    (ev : Event) (w' : World) (t : Trace) :
  run new_world evs = Done w tr ->
  step w ev = Done w' t ->
  existsb isGameEnd t = true ->
  isGameActive (eng w') = false /\
  levelUpTimer (eng w') = None /\ itemSpawnTimer (eng w') = None.
Proof.
  intros E0 E Hg.
  assert (Hr : reachable w) by exact (run_from_new _ _ _ E0).
  assert (Ha : isGameActive (eng w') = false)
    by exact (step_GameEnd_inactive w ev w' t Hr E Hg).
  split; [exact Ha|].
  assert (Hr' : reachable w') by exact (reach_step _ _ _ _ Hr E).
  destruct (reachable_Good _ Hr') as (_ & _ & Ht & _).
  unfold timersOK in Ht. rewrite Ha in Ht. exact Ht.
Qed.

Lemma game_ended_means_inactive_witness :
  exists w tr w' t,
    run new_world (setupGameCallbacks ++ firstn 2 bomb_with_apple_airborne) = Done w tr /\
    step w (EvFrame 3%positive 4000) = Done w' t /\
    existsb isGameEnd t = true /\ isGameActive (eng w') = false.
Proof.
  destruct (run new_world (setupGameCallbacks ++ firstn 2 bomb_with_apple_airborne))
    as [w tr| |] eqn:E0; try (vm_compute in E0; discriminate).
  destruct (step w (EvFrame 3%positive 4000)) as [w' t| |] eqn:E;
    try (vm_compute in E0; injection E0 as <- _; vm_compute in E; discriminate).
  assert (Hg : existsb isGameEnd t = true).
  { vm_compute in E0. injection E0 as <- _. vm_compute in E. injection E as _ <-.
    reflexivity. }
  exists w, tr, w', t. split; [reflexivity|]. split; [exact E|].
  split; [exact Hg|].
  exact (proj1 (game_ended_means_inactive _ w tr _ w' t E0 E Hg)).
Defined.

(** ** Starting and restarting a session *)

Lemma evict_single c now item :
  evict (map id (filter (landed c now) [item])) [item] =
  if landed c now item then [] else [item].
Proof.
  cbn [filter]. destruct (landed c now item); cbn; [|reflexivity].
  now rewrite Z.eqb_refl.
Qed.

Lemma spawned_restarted_fields t0 d w :
  let e := eng (spawned d (restarted t0 w)) in
  (forall k, slot k e = slot k (eng w)) /\ level e = 1 /\
  items e = [ {| id := 0; type := drawType d; zone := drawZone d; y := 0;
                 createdAt := drawNow d |} ].
Proof.
  destruct w as [e o]. destruct e. vm_compute. repeat split.
Qed.

Lemma newItem_restarted t0 d w :
  newItem d (eng (restarted t0 w)) =
  {| id := 0; type := drawType d; zone := drawZone d; y := 0; createdAt := drawNow d |}.
Proof.
  destruct w as [e o]. destruct e. vm_compute. reflexivity.
Qed.

Lemma set_items_same w l :
  items (eng w) = l -> {| eng := set_items l (eng w); host := host w |} = w.
Proof.
  destruct w as [e o]. destruct e. cbn. intros <-. reflexivity.
Qed.

Lemma start_sweeps t0 d tLoop w :
  let item := {| id := 0; type := drawType d; zone := drawZone d; y := 0;
                 createdAt := drawNow d |} in
  let hit := 4000 <=? tLoop - drawNow d in
  exists u t1,
    steady (spawned d (restarted t0 w)) u t1 /\
    (hit = false -> u = spawned d (restarted t0 w) /\ t1 = []) /\
    start t0 d tLoop w =
      Some (tt,
            looped {| eng := set_items (if hit then [] else [item]) (eng u);
                      host := host u |},
            notes (onScoreChange (eng w)) (ScoreChange 0 1 0 (maxMisses (eng w)) 0) ++
            notes (onItemCreate (eng w)) (ItemCreate item 4000) ++
            t1 ++ (if onItemRemove (eng w) && hit then [ItemRemove 0] else [])).
Proof.
  intros item hit.
  destruct (start_spec t0 d tLoop w) as (c & w1 & t & Hc & Hs & E).
  destruct Hs as (c' & u & t1 & Hc' & R & Hst & _ & Hw & Ht).
  destruct (spawned_restarted_fields t0 d w) as (Hk & Hlv & Hit). cbv zeta in Hk, Hlv, Hit.
  rewrite Hlv in Hc'. cbn in Hc, Hc'. injection Hc as <-. injection Hc' as <-.
  cbv zeta in Hw, Ht.
  pose proof (Hk SlotItemRemove) as Hrm. cbn [slot] in Hrm.
  rewrite Hit in Hw, Ht, R.
  rewrite evict_single in Hw. rewrite Hrm in Ht.
  rewrite newItem_restarted in E. cbn [fallDuration] in E.
  cbn [filter] in R, Ht.
  change (landed {| fallDuration := 4000; bombProbability := 5 # 100 |} tLoop
            {| id := 0; type := drawType d; zone := drawZone d; y := 0;
               createdAt := drawNow d |}) with hit in Hw, R, Ht.
  exists u, t1. split; [exact Hst|]. split.
  - intros Hh. rewrite Hh in R. cbn [resolveAll] in R. unfold skip, ret in R.
    injection R as <- <-. split; reflexivity.
  - rewrite E, Hw, Ht. do 5 f_equal.
    destruct (onItemRemove (eng w)), hit; reflexivity.
Qed.

(** X8.  [start()] drops whatever the collection held without reporting any
    of it removed, and restarts the ids at 0: whatever the state before,
    the only id reported created is 0, the only id that can be reported
    removed is that of the new item (when it lands in the first tick), the
    collection afterwards holds the new item alone or nothing, and the id
    counter is 1. *)
Theorem start_discards_silently (t0 : Z) (d : Draw) (tLoop : Z) (w : World) :
  let item := {| id := 0; type := drawType d; zone := drawZone d; y := 0;
                 createdAt := drawNow d |} in
  let hit := 4000 <=? tLoop - drawNow d in
  exists w' t,
    start t0 d tLoop w = Some (tt, w', t) /\
    created_ids t = (if onItemCreate (eng w) then [0] else []) /\
    removed_ids t = (if onItemRemove (eng w) && hit then [0] else []) /\
    items (eng w') = (if hit then [] else [item]) /\
    itemIdCounter (eng w') = 1.
Proof.
  intros item hit.
  destruct (start_sweeps t0 d tLoop w) as (u & t1 & Hs & _ & E).
  fold item hit in E.
  do 2 eexists. split; [exact E|].
  rewrite !created_ids_app, !removed_ids_app, (st_created _ _ _ Hs), (st_removed _ _ _ Hs).
  split; [|split; [|split]].
  - unfold notes. destruct (onScoreChange (eng w)), (onItemCreate (eng w)),
      (onItemRemove (eng w)), hit; reflexivity.
  - unfold notes. destruct (onScoreChange (eng w)), (onItemCreate (eng w)),
      (onItemRemove (eng w)), hit; reflexivity.
  - reflexivity.
  - cbn [looped eng set_animationId set_items itemIdCounter].
    rewrite (st_counter _ _ _ Hs). destruct w as [e o]. destruct e. vm_compute. reflexivity.
Qed.

Lemma start_fresh_eq t0 d tLoop w :
  tLoop - drawNow d < 4000 ->
  start t0 d tLoop w =
    Some (tt, fresh_session t0 d w,
          notes (onScoreChange (eng w)) (ScoreChange 0 1 0 (maxMisses (eng w)) 0) ++
          notes (onItemCreate (eng w))
            (ItemCreate {| id := 0; type := drawType d; zone := drawZone d; y := 0;
                           createdAt := drawNow d |} 4000)).
Proof.
  intros Hlt. apply Z.leb_gt in Hlt.
  destruct (start_sweeps t0 d tLoop w) as (u & t1 & _ & Hu & E). cbv zeta in Hu, E.
  destruct (Hu Hlt) as [-> ->]. rewrite E, Hlt, andb_false_r.
  rewrite set_items_same
    by exact (proj2 (proj2 (spawned_restarted_fields t0 d w))).
  cbn [app]. rewrite app_nil_r. reflexivity.
Qed.

Lemma fresh_session_fields t0 d w :
  let w' := fresh_session t0 d w in
  let h := nextHandle (host w) in
  getGameState (eng w') =
    {| gsIsActive := true; gsScore := 0; gsLevel := 1; gsMissCount := 0;
       gsMaxMisses := maxMisses (eng w); gsCombo := 0;
       gsBasketPosition := InZone CENTER; gsFruitsCaught := 0 |} /\
  items (eng w') = [ {| id := 0; type := drawType d; zone := drawZone d; y := 0;
                        createdAt := drawNow d |} ] /\
  itemIdCounter (eng w') = 1 /\ gameStartTime (eng w') = t0 /\
  (forall k, slot k (eng w') = slot k (eng w)) /\
  levelUpTimer (eng w') = Some h /\
  itemSpawnTimer (eng w') = Some (Pos.succ h) /\
  animationId (eng w') = Some (Pos.succ (Pos.succ h)) /\
  nextHandle (host w') = Pos.succ (Pos.succ (Pos.succ h)) /\
  intervals (host w') = intervals (host w) ++ [(h, levelUpPeriod)] /\
  timeouts (host w') = timeouts (host w) ++ [Pos.succ h] /\
  frames (host w') = frames (host w) ++ [Pos.succ (Pos.succ h)].
Proof.
  destruct w as [e o]. destruct e, o. vm_compute. repeat split.
Qed.

(** X9.  When the first item has not yet landed at the first tick (the tick
    comes less than 4000 ms after the item's creation), [start()] leaves a
    fresh session, whatever the state before: active, score 0, level 1, no
    miss, combo 0, no fruit caught, basket in the centre, the new item (id
    0) alone in the collection, id counter 1, three new timers pending, and
    it has reported the reset score and then the new item with the 4000 ms
    fall of level 1. *)
Theorem start_leaves_fresh_session (t0 : Z) (d : Draw) (tLoop : Z) (w : World) :
  tLoop - drawNow d < 4000 ->
  exists w',
    start t0 d tLoop w =
      Some (tt, w',
            notes (onScoreChange (eng w)) (ScoreChange 0 1 0 (maxMisses (eng w)) 0) ++
            notes (onItemCreate (eng w))
              (ItemCreate {| id := 0; type := drawType d; zone := drawZone d; y := 0;
                             createdAt := drawNow d |} 4000)) /\
    getGameState (eng w') =
      {| gsIsActive := true; gsScore := 0; gsLevel := 1; gsMissCount := 0;
         gsMaxMisses := maxMisses (eng w); gsCombo := 0;
         gsBasketPosition := InZone CENTER; gsFruitsCaught := 0 |} /\
    items (eng w') = [ {| id := 0; type := drawType d; zone := drawZone d; y := 0;
                          createdAt := drawNow d |} ] /\
    itemIdCounter (eng w') = 1 /\ gameStartTime (eng w') = t0 /\
    let h := nextHandle (host w) in
    levelUpTimer (eng w') = Some h /\
    itemSpawnTimer (eng w') = Some (Pos.succ h) /\
    animationId (eng w') = Some (Pos.succ (Pos.succ h)) /\
    intervals (host w') = intervals (host w) ++ [(h, levelUpPeriod)] /\
    timeouts (host w') = timeouts (host w) ++ [Pos.succ h] /\
    frames (host w') = frames (host w) ++ [Pos.succ (Pos.succ h)].
Proof.
  intros Hlt. exists (fresh_session t0 d w).
  split; [exact (start_fresh_eq t0 d tLoop w Hlt)|].
  destruct (fresh_session_fields t0 d w)
    as (H1 & H2 & H3 & H4 & _ & H5 & H6 & H7 & _ & H8 & H9 & H10).
  cbv zeta. auto 12.
Qed.

Lemma start_leaves_fresh_session_witness :
  exists w',
    start 0 (draw cherry RIGHT 5) 20 wired_world =
      Some (tt, w', [ScoreChange 0 1 0 3 0;
                     ItemCreate {| id := 0; type := cherry; zone := RIGHT; y := 0;
                                   createdAt := 5 |} 4000]) /\
    itemIdCounter (eng w') = 1.
Proof.
  destruct (start_leaves_fresh_session 0 (draw cherry RIGHT 5) 20 wired_world)
    as (w' & E & _ & _ & Hc & _).
  - vm_compute. reflexivity.
  - exists w'. split; [exact E|exact Hc].
Defined.

Lemma stopped_fields w :
  let w' := {| eng := set_items [] (halted (eng w)); host := released (eng w) (host w) |} in
  isGameActive (eng w') = false /\ items (eng w') = [] /\
  levelUpTimer (eng w') = None /\ itemSpawnTimer (eng w') = None /\
  animationId (eng w') = None /\
  score (eng w') = score (eng w) /\ level (eng w') = level (eng w) /\
  missCount (eng w') = missCount (eng w) /\ maxMisses (eng w') = maxMisses (eng w) /\
  combo (eng w') = combo (eng w) /\ fruitsCaught (eng w') = fruitsCaught (eng w) /\
  basketPosition (eng w') = basketPosition (eng w) /\
  itemIdCounter (eng w') = itemIdCounter (eng w) /\
  (forall k, slot k (eng w') = slot k (eng w)) /\
  nextHandle (host w') = nextHandle (host w).
Proof.
  destruct w as [e o]. destruct e, o. cbn. repeat split.
Qed.

Lemma levelUp_fires w h :
  mem h (map fst (intervals (host w))) = true -> level (eng w) < 5 ->
  step w (EvInterval h) =
    Done {| eng := set_level (level (eng w) + 1) (eng w); host := host w |}
         (notes (onScoreChange (eng w))
            (ScoreChange (score (eng w)) (level (eng w) + 1) (missCount (eng w))
               (maxMisses (eng w)) (combo (eng w)))).
Proof.
  intros Hm Hl. apply Z.ltb_lt in Hl. cbn [step]. rewrite Hm, levelUpTick_eq, Hl.
  destruct w as [e o]. destruct e. reflexivity.
Qed.

Lemma mem_interval_other h h' l :
  h <> h' ->
  mem h (map fst (drop_interval h' l)) = mem h (map fst l).
Proof.
  intros Hne. unfold mem, drop_interval. induction l as [|[a p] l IH]; cbn; [reflexivity|].
  destruct (Pos.eqb_spec a h'); cbn.
  - subst a. destruct (Pos.eqb_spec h h'); [contradiction|]. cbn. exact IH.
  - now rewrite IH.
Qed.

(** X10.  [start()] does not cancel the timers of a session that is still
    running.  After two starts in a row (neither with an item landing in
    its first tick) and a [stop()], the level-up interval of the first
    start is still pending although the engine is stopped, and when it
    fires it raises the level of the stopped engine to 2 and reports a
    score change. *)
Theorem second_start_leaks_interval (t0 : Z) (d : Draw) (tLoop : Z)
    (t0' : Z) (d' : Draw) (tLoop' : Z) (w : World) :
  tLoop - drawNow d < 4000 -> tLoop' - drawNow d' < 4000 ->
  let h := nextHandle (host w) in
  exists w' tr,
    run w [EvStart t0 d tLoop; EvStart t0' d' tLoop'; EvStop] = Done w' tr /\
    isGameActive (eng w') = false /\ levelUpTimer (eng w') = None /\
    level (eng w') = 1 /\
    mem h (map fst (intervals (host w'))) = true /\
    step w' (EvInterval h) =
      Done {| eng := set_level 2 (eng w'); host := host w' |}
           (notes (onScoreChange (eng w'))
              (ScoreChange (score (eng w')) 2 (missCount (eng w')) (maxMisses (eng w'))
                 (combo (eng w')))).
Proof.
  intros H1 H2 h.
  set (w1 := fresh_session t0 d w). set (w2 := fresh_session t0' d' w1).
  set (w3 := {| eng := set_items [] (halted (eng w2));
                host := released (eng w2) (host w2) |}).
  assert (E : exists tr,
             run w [EvStart t0 d tLoop; EvStart t0' d' tLoop'; EvStop] = Done w3 tr).
  { cbn [run step].
    rewrite (start_fresh_eq t0 d tLoop w H1). cbn [finish].
    rewrite (start_fresh_eq t0' d' tLoop' _ H2). cbn [finish].
    rewrite stop_eq. cbn [finish]. eexists. reflexivity. }
  destruct E as [tr E]. exists w3, tr. split; [exact E|].
  destruct (fresh_session_fields t0 d w)
    as (_ & _ & _ & _ & _ & _ & _ & _ & Hn1 & Hi1 & _).
  destruct (fresh_session_fields t0' d' w1)
    as (Hg2 & _ & _ & _ & _ & Hl2 & _ & _ & _ & Hi2 & _).
  cbv zeta in Hn1, Hi1, Hg2, Hl2, Hi2. fold w1 in Hn1, Hi1. fold w2 in Hg2, Hl2, Hi2.
  fold h in Hi1.
  destruct (stopped_fields w2) as (Ha & _ & Hlu & _ & _ & _ & Hlv & _).
  cbv zeta in Ha, Hlu, Hlv. fold w3 in Ha, Hlu, Hlv.
  assert (Hlv3 : level (eng w3) = 1) by (rewrite Hlv; exact (f_equal gsLevel Hg2)).
  assert (Hm : mem h (map fst (intervals (host w3))) = true).
  { unfold w3, released. cbn [host intervals]. rewrite Hl2.
    rewrite mem_interval_other by (rewrite Hn1; fold h; lia).
    rewrite Hi2, Hi1, !map_app. unfold mem. rewrite !existsb_app. cbn.
    rewrite Pos.eqb_refl. cbn. now rewrite orb_true_r. }
  split; [exact Ha|]. split; [exact Hlu|]. split; [exact Hlv3|]. split; [exact Hm|].
  rewrite (levelUp_fires w3 h Hm) by lia.
  rewrite Hlv3. reflexivity.
Qed.

Lemma second_start_leaks_interval_witness :
  exists w' tr,
    run wired_world [EvStart 0 (draw apple LEFT 0) 0; EvStart 10 (draw apple LEFT 10) 10;
                     EvStop] = Done w' tr /\
    isGameActive (eng w') = false /\
    mem 1%positive (map fst (intervals (host w'))) = true.
Proof.
  destruct (second_start_leaks_interval 0 (draw apple LEFT 0) 0 10 (draw apple LEFT 10) 10
              wired_world) as (w' & tr & E & Ha & _ & _ & Hm & _).
  - vm_compute. reflexivity.
  - vm_compute. reflexivity.
  - exists w', tr. split; [exact E|]. split; [exact Ha|exact Hm].
Defined.

(** ** The basket *)

Lemma Position_eqb_refl p : Position_eqb p p = true.
Proof.
  destruct p as [[]|k]; cbn; [reflexivity..|apply String.eqb_refl].
Qed.

(** X11.  [onPoseDetected] never throws, changes nothing but the basket
    position, reports at most one basket move, and is idempotent: the same
    pose a second time changes nothing and reports nothing. *)
Theorem onPoseDetected_idempotent (pose : string) (w : World) :
  exists w' t,
    onPoseDetected pose w = Some (tt, w', t) /\
    onPoseDetected pose w' = Some (tt, w', []) /\
    (t = [] \/ exists p, t = [BasketMove p] /\ basketPosition (eng w') = p) /\
    host w' = host w /\
    set_basketPosition (basketPosition (eng w)) (eng w') = eng w.
Proof.
  rewrite onPoseDetected_eq.
  destruct (isGameActive (eng w)) eqn:A.
  - destruct (poseToZone pose) as [p|] eqn:Z.
    + destruct (Position_eqb p (basketPosition (eng w))) eqn:P.
      * exists w, []. rewrite onPoseDetected_eq, A, Z, P.
        destruct w as [e o], e; cbn; auto.
      * do 2 eexists. split; [reflexivity|].
        rewrite onPoseDetected_eq. cbn [eng host]. 
        replace (isGameActive (set_basketPosition p (eng w))) with true
          by (destruct w as [e o], e; cbn in *; congruence).
        rewrite Z.
        replace (basketPosition (set_basketPosition p (eng w))) with p
          by (destruct w as [e o], e; reflexivity).
        rewrite Position_eqb_refl. split; [reflexivity|].
        split; [|split; [reflexivity|destruct w as [e o], e; reflexivity]].
        unfold notes. destruct (onBasketMove (eng w)); [right|left; reflexivity].
        exists p. split; [reflexivity|]. destruct w as [e o], e; reflexivity.
    + exists w, []. rewrite onPoseDetected_eq, A, Z. destruct w as [e o], e; cbn; auto.
  - exists w, []. rewrite onPoseDetected_eq, A. destruct w as [e o], e; cbn; auto.
Qed.

(** ** Falling *)

Lemma levelConfig_cases l c :
  levelConfig l = Some c ->
  (l = 1 /\ fallDuration c = 4000) \/ (l = 2 /\ fallDuration c = 3500) \/
  (l = 3 /\ fallDuration c = 3000) \/ (l = 4 /\ fallDuration c = 2500) \/
  (l = 5 /\ fallDuration c = 2000).
Proof.
  unfold levelConfig.
  destruct (Z.eqb_spec l 1); [intros E; injection E as <-; cbn; auto|].
  destruct (Z.eqb_spec l 2); [intros E; injection E as <-; cbn; auto|].
  destruct (Z.eqb_spec l 3); [intros E; injection E as <-; cbn; auto|].
  destruct (Z.eqb_spec l 4); [intros E; injection E as <-; cbn; auto 6|].
  destruct (Z.eqb_spec l 5); [intros E; injection E as <-; cbn; auto 6|].
  discriminate.
Qed.

(** X12.  A tick judges every item by the fall duration of the level at the
    tick, not of the level at which the item was created, and that
    duration never grows with the level: of two engines that hold the same
    items, the one at the higher level keeps after [updateItems] only items
    that the other keeps too, so a level-up never postpones a landing. *)
Theorem level_up_never_postpones_landing (now : Z) (w w' : World) :
  levelOK (eng w) -> levelOK (eng w') -> level (eng w) <= level (eng w') ->
  items (eng w') = items (eng w) -> NoDup (map id (items (eng w))) ->
  exists c c' u t u' t',
    levelConfig (Z.min (level (eng w)) 5) = Some c /\
    levelConfig (Z.min (level (eng w')) 5) = Some c' /\
    fallDuration c' <= fallDuration c /\
    updateItems now w = Some (tt, u, t) /\
    updateItems now w' = Some (tt, u', t') /\
    items (eng u) =
      filter (fun item => negb (fallDuration c <=? now - createdAt item)) (items (eng w)) /\
    items (eng u') =
      filter (fun item => negb (fallDuration c' <=? now - createdAt item)) (items (eng w)) /\
    forall item, In item (items (eng u')) -> In item (items (eng u)).
Proof.
  intros Hl Hl' Hle Hi Hnd.
  destruct (updateItems_keeps now w Hl Hnd) as (c & u & t & Hc & E & _ & Hu).
  assert (Hnd' : NoDup (map id (items (eng w')))) by (rewrite Hi; exact Hnd).
  destruct (updateItems_keeps now w' Hl' Hnd') as (c' & u' & t' & Hc' & E' & _ & Hu').
  rewrite Hi in Hu'.
  assert (Hd : fallDuration c' <= fallDuration c).
  { pose proof (levelConfig_cases _ _ Hc). pose proof (levelConfig_cases _ _ Hc'). lia. }
  exists c, c', u, t, u', t'.
  split; [exact Hc|]. split; [exact Hc'|]. split; [exact Hd|].
  split; [exact E|]. split; [exact E'|]. split; [exact Hu|]. split; [exact Hu'|].
  intros item. rewrite Hu, Hu', !filter_In. unfold landed.
  intros [Hin Hn]. split; [exact Hin|].
  apply negb_true_iff in Hn. apply negb_true_iff.
  apply Z.leb_gt in Hn. apply Z.leb_gt. lia.
Qed.

Lemma level_up_never_postpones_landing_witness :
  exists u t u' t',
    updateItems 3500 started_world = Some (tt, u, t) /\
    updateItems 3500 {| eng := set_level 2 (eng started_world); host := host started_world |}
      = Some (tt, u', t') /\
    (forall item, In item (items (eng u')) -> In item (items (eng u))).
Proof.
  destruct (level_up_never_postpones_landing 3500 started_world
              {| eng := set_level 2 (eng started_world); host := host started_world |})
    as (c & c' & u & t & u' & t' & _ & _ & _ & E & E' & _ & _ & H).
  - unfold levelOK. vm_compute. split; discriminate.
  - unfold levelOK. vm_compute. split; discriminate.
  - vm_compute. discriminate.
  - vm_compute. reflexivity.
  - vm_compute. repeat constructor. intros [].
  - exists u, t, u', t'. split; [exact E|]. split; [exact E'|exact H].
Defined.

(** X13.  [createItem] and [updateItems] agree on the fall.  At a valid
    level, with the collection in creation order, [createItem] appends the
    new item with the next id and hands the item and a duration to the
    item-created callback; as long as the level stays what it was, an
    [updateItems] at any time removes the new item exactly when that
    duration has passed since the item's creation, and keeps it otherwise. *)
Theorem createItem_announces_the_fall (d : Draw) (w : World) :
  levelOK (eng w) -> ordered (eng w) ->
  exists c w',
    levelConfig (Z.min (level (eng w)) 5) = Some c /\
    createItem d w =
      Some (tt, w',
            notes (onItemCreate (eng w)) (ItemCreate (newItem d (eng w)) (fallDuration c))) /\
    items (eng w') = items (eng w) ++ [newItem d (eng w)] /\
    id (newItem d (eng w)) = itemIdCounter (eng w) /\
    itemIdCounter (eng w') = itemIdCounter (eng w) + 1 /\
    level (eng w') = level (eng w) /\
    forall now, exists w'' t,
      updateItems now w' = Some (tt, w'', t) /\
      items (eng w'') =
        filter (fun item => negb (landed c now item)) (items (eng w)) ++
        (if fallDuration c <=? now - drawNow d then [] else [newItem d (eng w)]) /\
      (In (newItem d (eng w)) (items (eng w'')) <-> now - drawNow d < fallDuration c).
Proof.
  intros Hl Ho. destruct (createItem_spec d w Hl) as (c & Hc & E).
  exists c. eexists. split; [exact Hc|]. split; [exact E|].
  cbn [eng host].
  assert (Hi : items (pushed d (eng w)) = items (eng w) ++ [newItem d (eng w)])
    by (destruct (eng w); reflexivity).
  assert (Hn : itemIdCounter (pushed d (eng w)) = itemIdCounter (eng w) + 1)
    by (destruct (eng w); reflexivity).
  assert (Hv : level (pushed d (eng w)) = level (eng w))
    by (destruct (eng w); reflexivity).
  split; [exact Hi|]. split; [reflexivity|]. split; [exact Hn|]. split; [exact Hv|].
  intros now.
  set (w' := {| eng := pushed d (eng w); host := host w |}).
  assert (Hl' : levelOK (eng w')) by (unfold levelOK; cbn [w' eng]; rewrite Hv; exact Hl).
  assert (Hnd : NoDup (map id (items (eng w'))))
    by exact (ordered_NoDup _ (pushed_ordered d _ Ho)).
  destruct (updateItems_keeps now w' Hl' Hnd) as (c' & w'' & t & Hc' & E' & _ & Hk).
  cbn [w' eng] in Hc', Hk. rewrite Hv, Hc in Hc'. injection Hc' as <-.
  exists w'', t. split; [exact E'|].
  assert (Hk' : items (eng w'') =
                filter (fun item => negb (landed c now item)) (items (eng w)) ++
                (if fallDuration c <=? now - drawNow d then [] else [newItem d (eng w)])).
  { rewrite Hk, Hi, filter_app. cbn [filter]. unfold landed at 2.
    cbn [createdAt newItem]. destruct (fallDuration c <=? now - drawNow d); reflexivity. }
  split; [exact Hk'|].
  rewrite Hk, Hi, filter_In, in_app_iff. unfold landed at 1.
  cbn [createdAt newItem]. rewrite negb_true_iff, Z.leb_gt.
  split; [intros [_ H]; exact H|intros H; split; [right; left; reflexivity|exact H]].
Qed.

Lemma createItem_announces_the_fall_witness :
  exists c w',
    levelConfig (Z.min (level (eng started_world)) 5) = Some c /\
    createItem (draw banana CENTER 1500) started_world =
      Some (tt, w',
            notes (onItemCreate (eng started_world))
              (ItemCreate (newItem (draw banana CENTER 1500) (eng started_world))
                 (fallDuration c))) /\
    exists w'' t,
      updateItems 5500 w' = Some (tt, w'', t) /\
      ~ In (newItem (draw banana CENTER 1500) (eng started_world)) (items (eng w'')).
Proof.
  destruct (createItem_announces_the_fall (draw banana CENTER 1500) started_world)
    as (c & w' & Hc & E & _ & _ & _ & _ & H).
  - unfold levelOK. vm_compute. split; discriminate.
  - exact (proj1 (reachable_Good _ started_world_reachable)).
  - exists c, w'. split; [exact Hc|]. split; [exact E|].
    destruct (H 5500) as (w'' & t & E' & _ & Hin).
    exists w'', t. split; [exact E'|]. intros Hm. apply Hin in Hm.
    vm_compute in Hc. injection Hc as <-. vm_compute in Hm. discriminate Hm.
Defined.

(** ** Stopping *)

Lemma drop_length h l : (List.length (drop h l) <= List.length l)%nat.
Proof.
  unfold drop. induction l as [|a l IH]; cbn; [lia|].
  destruct (negb (a =? h)%positive); cbn; lia.
Qed.

(** X14.  A pose, a spawn timeout or an animation frame that reaches an
    inactive engine finds the [isGameActive] guard: no field of the engine
    changes, no callback is called, no timer is armed (the host hands out no
    new handle) and the one-shot chains die out. *)
Theorem stale_callbacks_do_nothing (w : World) (ev : Event) (w' : World) (t : Trace) :
  isGameActive (eng w) = false -> passive ev = true ->
  step w ev = Done w' t ->
  eng w' = eng w /\ t = [] /\
  nextHandle (host w') = nextHandle (host w) /\
  intervals (host w') = intervals (host w) /\
  (one_shots (host w') <= one_shots (host w))%nat.
Proof.
  intros Ha Hev.
  destruct ev as [k v|t0 d tLoop| |pose|h|h d|h now]; try discriminate; clear Hev.
  - cbn [step]. rewrite onPoseDetected_eq, Ha. cbn. intros E; injection E as <- <-.
    repeat split; lia.
  - rewrite step_timeout_eq. destruct (mem h (timeouts (host w))); [|discriminate].
    rewrite spawnItem_eq. cbn [without_timeout eng]. rewrite Ha. cbn [finish].
    intros E; injection E as <- <-. unfold one_shots. cbn.
    repeat split. pose proof (drop_length h (timeouts (host w))). lia.
  - rewrite step_frame_eq. destruct (mem h (frames (host w))); [|discriminate].
    rewrite gameLoop_eq. cbn [without_frame eng]. rewrite Ha. cbn [finish].
    intros E; injection E as <- <-. unfold one_shots. cbn.
    repeat split. pose proof (drop_length h (frames (host w))). lia.
Qed.

Lemma stale_callbacks_do_nothing_witness :
  exists w' t, step new_world (EvPose "좌") = Done w' t /\ eng w' = eng new_world /\ t = [].
Proof.
  exists new_world, [].
  destruct (stale_callbacks_do_nothing new_world (EvPose "좌") new_world [])
    as (He & Ht & _); [reflexivity|reflexivity|reflexivity|].
  split; [reflexivity|]. split; [exact He|exact Ht].
Defined.

(** X15.  [stop()] never throws.  It reports every item of the collection
    removed, once and in collection order (nothing without the callback),
    and nothing else; afterwards the collection is empty, the engine is
    inactive and holds no handle, none of the handles it held is pending
    any more, and the scoreboard, the basket and the id counter are what
    they were: a stop is not a reset. *)
Theorem stop_clears_and_reports (w : World) :
  exists w' t,
    stop w = Some (tt, w', t) /\
    t = (if onItemRemove (eng w)
         then map (fun item => ItemRemove (id item)) (items (eng w)) else []) /\
    removed_ids t = (if onItemRemove (eng w) then map id (items (eng w)) else []) /\
    items (eng w') = [] /\ isGameActive (eng w') = false /\
    levelUpTimer (eng w') = None /\ itemSpawnTimer (eng w') = None /\
    animationId (eng w') = None /\
    (forall h, levelUpTimer (eng w) = Some h ->
       mem h (map fst (intervals (host w'))) = false) /\
    (forall h, itemSpawnTimer (eng w) = Some h -> mem h (timeouts (host w')) = false) /\
    (forall h, animationId (eng w) = Some h -> mem h (frames (host w')) = false) /\
    scoreboard (eng w') = scoreboard (eng w) /\
    fruitsCaught (eng w') = fruitsCaught (eng w) /\
    basketPosition (eng w') = basketPosition (eng w) /\
    itemIdCounter (eng w') = itemIdCounter (eng w).
Proof.
  do 2 eexists. split; [apply stop_eq|]. split; [reflexivity|].
  destruct (stopped_fields w)
    as (Ha & Hi & H1 & H2 & H3 & Hs & Hl & Hm & Hx & Hc & Hf & Hb & Hn & _).
  cbv zeta in *.
  split.
  { destruct (onItemRemove (eng w)); [|reflexivity].
    rewrite <- (map_map id ItemRemove). apply removed_ids_map. }
  split; [exact Hi|]. split; [exact Ha|]. split; [exact H1|]. split; [exact H2|].
  split; [exact H3|].
  split; [intros h Hh; cbn; rewrite Hh; apply mem_drop_interval|].
  split; [intros h Hh; cbn; rewrite Hh; apply mem_drop|].
  split; [intros h Hh; cbn; rewrite Hh; apply mem_drop|].
  split; [unfold scoreboard; congruence|]. auto.
Qed.

Lemma stop_clears_and_reports_witness :
  exists w' t,
    stop started_world = Some (tt, w', t) /\ items (eng w') = [] /\
    mem 1%positive (map fst (intervals (host w'))) = false.
Proof.
  destruct (stop_clears_and_reports started_world)
    as (w' & t & E & _ & _ & Hi & _ & _ & _ & _ & Hm & _).
  exists w', t. split; [exact E|]. split; [exact Hi|].
  apply Hm. vm_compute. reflexivity.
Defined.

Lemma pageStop_eq w :
  pageStop w = if isGameActive (eng w) then stop w else Some (tt, w, []).
Proof.
  unfold pageStop, bind, this. destruct (isGameActive (eng w)).
  - destruct (stop w) as [[[[] w'] t]|]; reflexivity.
  - reflexivity.
Qed.

(** X16.  The Stop button after a game over does nothing to the engine:
    [stop()] of the page calls the engine's [stop()] only while it is
    active, so once an event has called the game-ended callback the items
    that [endGame] left in the collection stay there and are not reported
    removed. *)
Theorem pageStop_after_game_over (evs : list Event) (w : World) (tr : Trace)
    (ev : Event) (w' : World) (t : Trace) :
  run new_world evs = Done w tr ->
  step w ev = Done w' t ->
  existsb isGameEnd t = true ->
  pageStop w' = Some (tt, w', []).
Proof.
  intros E0 E Hg. rewrite pageStop_eq.
  now rewrite (step_GameEnd_inactive w ev w' t (run_from_new _ _ _ E0) E Hg).
Qed.

Lemma pageStop_after_game_over_witness :
  exists w tr w' t,
    run new_world (setupGameCallbacks ++ firstn 2 bomb_with_apple_airborne) = Done w tr /\
    step w (EvFrame 3%positive 4000) = Done w' t /\
    pageStop w' = Some (tt, w', []) /\ items (eng w') <> [].
Proof.
  destruct (run new_world (setupGameCallbacks ++ firstn 2 bomb_with_apple_airborne))
    as [w tr| |] eqn:E0; try (vm_compute in E0; discriminate).
  destruct (step w (EvFrame 3%positive 4000)) as [w' t| |] eqn:E;
    try (vm_compute in E0; injection E0 as <- _; vm_compute in E; discriminate).
  assert (Hg : existsb isGameEnd t = true).
  { vm_compute in E0. injection E0 as <- _. vm_compute in E. injection E as _ <-.
    reflexivity. }
  exists w, tr, w', t. split; [reflexivity|]. split; [exact E|].
  split; [exact (pageStop_after_game_over _ w tr _ w' t E0 E Hg)|].
  vm_compute in E0. injection E0 as <- _. vm_compute in E. injection E as <- _.
  discriminate.
Defined.

(** X17.  From a fresh page the engine never throws, whatever the page and
    the host do and in whatever order: the level stays between 1 and 5 (so
    the [levelConfig] lookups of [createItem] and [updateItems] always find
    an entry), the limit stays 3, the miss counter is never negative, and
    an active engine has fewer misses than the limit. *)
Theorem engine_never_throws (evs : list Event) :
  run new_world evs <> Threw /\
  forall w tr, run new_world evs = Done w tr ->
    1 <= level (eng w) <= 5 /\ maxMisses (eng w) = 3 /\ 0 <= missCount (eng w) /\
    (isGameActive (eng w) = true -> missCount (eng w) < 3) /\
    forall ev, step w ev <> Threw.
Proof.
  assert (H0 : Inv (eng new_world)) by exact (reachable_Inv _ reach_new).
  split; [exact (run_never_throws evs new_world H0)|].
  intros w tr E. pose proof (reachable_Inv _ (run_from_new _ _ _ E)) as HI.
  destruct HI as [Hl (Hm & Hc & Ha)]. unfold levelOK in Hl.
  split; [exact Hl|]. split; [exact Hm|]. split; [exact Hc|]. split.
  - intros A. destruct (Z.le_gt_cases (maxMisses (eng w)) (missCount (eng w))) as [L|G].
    + specialize (Ha L). congruence.
    + lia.
  - intros ev. destruct (step_Inv w ev (conj Hl (conj Hm (conj Hc Ha))))
      as [->|(w1 & t1 & -> & _)]; discriminate.
Qed.

Lemma engine_never_throws_witness :
  exists w tr,
    run new_world (setupGameCallbacks ++ late_frame) = Done w tr /\
    1 <= level (eng w) <= 5.
Proof.
  destruct (run new_world (setupGameCallbacks ++ late_frame)) as [w tr| |] eqn:E;
    try (vm_compute in E; discriminate).
  exists w, tr. split; [reflexivity|].
  exact (proj1 (proj2 (engine_never_throws _) w tr E)).
Defined.

(** ** The score display *)

Lemma display_app t1 : forall s t2, display s (t1 ++ t2) = display (display s t1) t2.
Proof.
  induction t1 as [|n t1 IH]; intros s t2; [reflexivity|]. cbn. apply IH.
Qed.

Lemma display_quiet t : forall s, existsb isScoreChange t = false -> display s t = s.
Proof.
  induction t as [|n t IH]; intros s; [reflexivity|]. cbn.
  destruct (isScoreChange n); [discriminate|]. cbn. apply IH.
Qed.

Lemma display_removals (b : bool) ids s :
  display s (if b then map ItemRemove ids else []) = s.
Proof.
  apply display_quiet. destruct b; [|reflexivity]. induction ids; cbn; auto.
Qed.

Lemma resolve_shows item w w' t :
  onScoreChange (eng w) = true ->
  resolve item w = Some (tt, w', t) ->
  onScoreChange (eng w') = true /\
  display (Some (scoreboard (eng w))) t = Some (scoreboard (eng w')).
Proof.
  intros Hs. resolve_cases item w Hf; cbn [eng host]; unfold notes;
    destruct w as [e o], e; cbn in Hs; subst;
    unfold scoreboard, halted, missed; cbn;
    repeat match goal with
           | |- context [if ?b then _ else _] => destruct b
           end; cbn; auto.
Qed.

Lemma resolveAll_shows l : forall w w' t,
  onScoreChange (eng w) = true ->
  resolveAll l w = Some (tt, w', t) ->
  onScoreChange (eng w') = true /\
  display (Some (scoreboard (eng w))) t = Some (scoreboard (eng w')).
Proof.
  induction l as [|item rest IH]; intros w w' t Hs.
  - cbn. intros E; injection E as <- <-. auto.
  - cbn [resolveAll]. intros E.
    apply bind_inv in E as ([] & w1 & t1 & t2 & E1 & E2 & ->).
    destruct (resolve_shows _ _ _ _ Hs E1) as (Hs1 & D1).
    destruct (IH _ _ _ Hs1 E2) as (Hs2 & D2).
    split; [exact Hs2|]. now rewrite display_app, D1.
Qed.

Lemma swept_shows now w w' t :
  onScoreChange (eng w) = true -> swept now w w' t ->
  onScoreChange (eng w') = true /\
  display (Some (scoreboard (eng w))) t = Some (scoreboard (eng w')).
Proof.
  intros Hs (c & w1 & t1 & _ & R & _ & _ & -> & ->).
  destruct (resolveAll_shows _ _ _ _ Hs R) as (Hs1 & D1).
  rewrite display_app, D1, display_removals.
  destruct w1 as [e1 o1], e1. cbn in *. auto.
Qed.

Lemma spawned_restarted_scoreboard t0 d w :
  scoreboard (eng (spawned d (restarted t0 w))) = ScoreChange 0 1 0 (maxMisses (eng w)) 0 /\
  onScoreChange (eng (spawned d (restarted t0 w))) = onScoreChange (eng w).
Proof.
  destruct w as [e o], e. vm_compute. auto.
Qed.

Lemma looped_scoreboard w :
  scoreboard (eng (looped w)) = scoreboard (eng w) /\
  onScoreChange (eng (looped w)) = onScoreChange (eng w).
Proof.
  destruct w as [e o], e. cbn. auto.
Qed.

Ltac shows_fields w Hs :=
  let e := fresh "e" in
  let o := fresh "o" in
  destruct w as [e o]; destruct e; cbn in Hs; subst;
  unfold scoreboard, notes; cbn;
  repeat match goal with
         | |- context [if ?b then _ else _] => destruct b
         end;
  cbn; reflexivity.

Lemma step_shows w ev w' t :
  levelOK (eng w) -> onScoreChange (eng w) = true -> keeps_score_slot ev = true ->
  step w ev = Done w' t ->
  onScoreChange (eng w') = true /\
  forall s, s = Some (scoreboard (eng w)) \/ restarts ev = true ->
    display s t = Some (scoreboard (eng w')).
Proof.
  intros Hl Hs Hk.
  destruct ev as [k v|t0 d tLoop| |pose|h|h d|h now].
  - cbn [step assign finish]. unfold assign. cbn [finish]. intros E; injection E as <- <-.
    destruct k; try discriminate;
      (split; [|intros s [->|D]; [|discriminate D]]); shows_fields w Hs.
  - cbn [step]. destruct (start_spec t0 d tLoop w) as (c & w1 & t1 & _ & Hsw & ->).
    cbn [finish]. intros E; injection E as <- <-.
    destruct (spawned_restarted_scoreboard t0 d w) as (B & S).
    rewrite Hs in S. destruct (swept_shows _ _ _ _ S Hsw) as (Hs1 & D1).
    destruct (looped_scoreboard w1) as (B' & S').
    split; [congruence|]. intros s _.
    rewrite Hs. unfold notes at 1. cbn [app display isScoreChange].
    rewrite display_app.
    replace (display _ (notes (onItemCreate (eng w)) _))
      with (Some (ScoreChange 0 1 0 (maxMisses (eng w)) 0))
      by (unfold notes; destruct (onItemCreate (eng w)); reflexivity).
    rewrite <- B, D1. congruence.
  - cbn [step]. rewrite stop_eq. cbn [finish]. intros E; injection E as <- <-.
    destruct (stopped_fields w)
      as (_ & _ & _ & _ & _ & H1 & H2 & H3 & H4 & H5 & _ & _ & _ & Hsl & _).
    cbv zeta in *. split; [rewrite <- Hs; exact (Hsl SlotScoreChange)|].
    intros s [->|D]; [|discriminate D].
    rewrite (display_quiet _ _)
      by (destruct (onItemRemove (eng w)); [|reflexivity];
          induction (items (eng w)); cbn; auto).
    unfold scoreboard. congruence.
  - cbn [step]. rewrite onPoseDetected_eq.
    destruct (isGameActive (eng w));
      [destruct (poseToZone pose) as [p|];
       [destruct (Position_eqb p (basketPosition (eng w)))|]|];
      cbn [finish]; intros E; injection E as <- <-;
      (split; [|intros s [->|D]; [|discriminate D]]); shows_fields w Hs.
  - cbn [step]. destruct (mem h (map fst (intervals (host w)))); [|discriminate].
    rewrite levelUpTick_eq. destruct (level (eng w) <? 5); cbv zeta; cbn [finish];
      intros E; injection E as <- <-;
      (split; [|intros s [->|D]; [|discriminate D]]); shows_fields w Hs.
  - rewrite step_timeout_eq. destruct (mem h (timeouts (host w))); [|discriminate].
    destruct (spawnItem_spec d (without_timeout h w) Hl) as (c & _ & ->).
    cbn [without_timeout eng].
    destruct (isGameActive (eng w)); cbn [finish]; intros E; injection E as <- <-;
      (split; [|intros s [->|D]; [|discriminate D]]); shows_fields w Hs.
  - rewrite step_frame_eq. destruct (mem h (frames (host w))); [|discriminate].
    pose proof (gameLoop_spec now (without_frame h w) Hl) as G. cbn [without_frame eng] in G.
    destruct (isGameActive (eng w)).
    + destruct G as (w1 & t1 & -> & Hsw). cbn [finish]. intros E; injection E as <- <-.
      destruct (swept_shows now (without_frame h w) _ _ Hs Hsw) as (Hs1 & D1).
      destruct (looped_scoreboard w1) as (B' & S').
      split; [congruence|]. intros s [->|D]; [|discriminate D].
      cbn [without_frame eng] in D1. congruence.
    + rewrite G. cbn [finish]. intros E; injection E as <- <-.
      split; [exact Hs|]. intros s [->|D]; [reflexivity|discriminate D].
Qed.

Lemma run_shows evs : forall w w' t,
  Inv (eng w) -> onScoreChange (eng w) = true ->
  forallb keeps_score_slot evs = true ->
  run w evs = Done w' t ->
  display (Some (scoreboard (eng w))) t = Some (scoreboard (eng w')).
Proof.
  induction evs as [|ev evs IH]; intros w w' t HI Hs Hk; cbn [run].
  - intros E; injection E as <- <-. reflexivity.
  - cbn in Hk. apply andb_prop in Hk as [Hk Hks].
    destruct (step w ev) as [w1 t1| |] eqn:E1; try discriminate.
    destruct (run w1 evs) as [w2 t2| |] eqn:E2; try discriminate.
    intros E; injection E as <- <-.
    assert (HI1 : Inv (eng w1)).
    { destruct (step_Inv w ev HI) as [N|(x & y & Ex & Hx)]; congruence. }
    destruct (step_shows _ _ _ _ (proj1 HI) Hs Hk E1) as (Hs1 & D1).
    rewrite display_app, (D1 _ (or_introl eq_refl)).
    exact (IH _ _ _ HI1 Hs1 Hks E2).
Qed.

(** X18.  The score display never goes stale.  Once the score callback is
    registered and the game has been started, after any further events
    that leave that registration alone the last scoreboard handed to the
    callback is the engine's current one (score, level, misses, limit and
    combo), whatever the display showed before the start. *)
Theorem score_display_in_sync (evs0 : list Event) (w0 : World) (tr0 : Trace)
    (t0 : Z) (d : Draw) (tLoop : Z) (evs : list Event) (w : World) (tr : Trace)
    (before : option Notification) :
  run new_world evs0 = Done w0 tr0 ->
  onScoreChange (eng w0) = true ->
  forallb keeps_score_slot evs = true ->
  run w0 (EvStart t0 d tLoop :: evs) = Done w tr ->
  display before tr = Some (scoreboard (eng w)).
Proof.
  intros E0 Hs Hk. cbn [run].
  pose proof (reachable_Inv _ (run_from_new _ _ _ E0)) as HI.
  destruct (step w0 (EvStart t0 d tLoop)) as [w1 t1| |] eqn:E1; try discriminate.
  destruct (run w1 evs) as [w2 t2| |] eqn:E2; try discriminate.
  intros E; injection E as <- <-.
  assert (HI1 : Inv (eng w1)).
  { destruct (step_Inv w0 (EvStart t0 d tLoop) HI) as [N|(x & y & Ex & Hx)]; congruence. }
  destruct (step_shows w0 (EvStart t0 d tLoop) w1 t1 (proj1 HI) Hs eq_refl E1)
    as (Hs1 & D1).
  rewrite display_app, (D1 before (or_intror eq_refl)).
  exact (run_shows evs _ _ _ HI1 Hs1 Hk E2).
Qed.

Lemma score_display_in_sync_witness :
  exists w0 tr0 w tr,
    run new_world setupGameCallbacks = Done w0 tr0 /\
    run w0 apple_then_bomb = Done w tr /\
    display None tr = Some (scoreboard (eng w)) /\
    scoreboard (eng w) = ScoreChange 100 1 0 3 1.
Proof.
  destruct (run new_world setupGameCallbacks) as [w0 tr0| |] eqn:E0;
    try (vm_compute in E0; discriminate).
  destruct (run w0 apple_then_bomb) as [w tr| |] eqn:E;
    try (vm_compute in E0; injection E0 as <- _; vm_compute in E; discriminate).
  assert (Hs : onScoreChange (eng w0) = true).
  { vm_compute in E0. injection E0 as <- _. reflexivity. }
  exists w0, tr0, w, tr. split; [reflexivity|]. split; [exact E|].
  split.
  - exact (score_display_in_sync setupGameCallbacks w0 tr0 0 (draw apple CENTER 0) 0
             (skipn 1 apple_then_bomb) w tr None E0 Hs eq_refl E).
  - vm_compute in E0. injection E0 as <- _. vm_compute in E. injection E as <- _.
    reflexivity.
Defined.

(** ** The page *)

(** X19.  The guard of [handlePrediction] in the page is redundant: handing
    a class name to the engine through it does exactly what an unguarded
    call of [onPoseDetected] does, since the engine checks [isGameActive]
    itself and the empty class name is no key of [poseToZone]. *)
Theorem handlePrediction_guard_is_redundant (className : string) (w : World) :
  handlePrediction className w = onPoseDetected className w.
Proof.
  unfold handlePrediction, bind, this. cbn [app].
  destruct (isGameActive (eng w)) eqn:A; cbn [andb].
  - destruct (String.eqb_spec className "") as [->|_]; cbn [negb].
    + rewrite onPoseDetected_eq, A. reflexivity.
    + destruct (onPoseDetected className w) as [[[[] w'] t]|]; reflexivity.
  - rewrite onPoseDetected_eq, A. reflexivity.
Qed.
